(** * Face lock controller: enrollment, verification and lock control

  A shallow embedding of [py.py] (DeepFace-based face lock driving an
  ESP32 over a serial line) and the properties of its enrollment
  session, its verification function, its reset handler and its lock
  controller.

  Conventions of the embedding.
  - Module globals ([status_text], [is_unlocked], [person_counter],
    [name_map], [button_clicked], [last_lock_state],
    [registration_in_progress], [arduino]) are the fields of one record
    [State] that every function threads explicitly.
  - The directory [SAVED_NAMES_PATH] is a finite map from entry names to
    entries.  The script creates it at import time and the reset handler
    recreates it, so it is modelled as always present.
  - OpenCV, DeepFace and scikit-learn are external: they are the methods
    of the class [VisionProvider].  A call that raises is a method that
    returns [None].
  - Floating-point numbers are the rationals they denote: the readings
    of [time.time()] in seconds, the similarity scores, the confidence.
    Comparisons are exact, as they are on doubles.  The two arithmetic
    operations the script applies to them, the difference of two clock
    readings and the product [best_score * 100], are those of binary64
    ([fsub], [fmul]): the exact result rounded to the nearest double,
    ties to even.  No quantity of the script comes near the overflow
    threshold, and infinities are left out.
  - The strings assigned to [status_text] are the constructors of
    [Status], with the interpolated values as arguments.
  - Drawing, windows and [print] are left out: they change none of the
    globals and none of the files. *)

From Stdlib Require Import ZArith QArith Qround Qpower Qabs.
From Stdlib Require Import Ascii String List Sorted Lia Lqa.
From stdpp Require Import gmap strings list fin_maps pretty.

Open Scope Z_scope.

(** ** Configuration constants *)

Module Config.
(** [REGISTRATION_DURATION = 7] seconds. *)
Definition REGISTRATION_DURATION : Q := 7.
(** The literal [0.5] of the spacing test, in seconds. *)
Definition CAPTURE_SPACING : Q := 1 # 2.
(** [UPDATE_INTERVAL = 1] second. *)
Definition UPDATE_INTERVAL : Q := 1.
Definition MAX_REGISTRATION_IMAGES : nat := 10.
Definition MIN_REGISTRATION_FACES : nat := 3.
(** [CONFIDENCE_THRESHOLD = 0.4]: the double nearest to 2/5. *)
Definition CONFIDENCE_THRESHOLD : Q :=
  3602879701896397 # 9007199254740992.
End Config.
Import Config.

(** ** Binary64 arithmetic *)

(** The doubles are the rationals [m * 2 ^ g] with [|m| < 2 ^ 53] and
    [-1074 <= g].  An operation of binary64 returns the double nearest
    to the exact result, the one with the even [m] when two are equally
    near. *)
Module Binary64.

(** [floor (log2 |x|)], for [x] other than 0. *)
Definition ilog2 (x : Q) : Z :=
  let e := Z.log2 (Z.abs (Qnum x)) - Z.log2 (Zpos (Qden x)) in
  if Qle_bool (2 ^ e) (Qabs x) then e else e - 1.

(** The exponent of the last place of a double of the magnitude of [x]:
    53 significant bits, and nothing finer than [2 ^ -1074]. *)
Definition ulp_exp (x : Q) : Z := Z.max (ilog2 x - 52) (-1074).

(** The integer nearest to [x], the even one of two equally near. *)
Definition rne (x : Q) : Z :=
  let f := Qfloor x in
  match Qcompare (x - inject_Z f) (1 # 2) with
  | Lt => f
  | Gt => f + 1
  | Eq => if Z.even f then f else f + 1
  end.

(** The multiple of [2 ^ g] nearest to [x]. *)
Definition on_grid (g : Z) (x : Q) : Q :=
  (inject_Z (rne (x * 2 ^ (- g))) * 2 ^ g)%Q.

(** The double nearest to [x], in lowest terms. *)
Definition round64 (x : Q) : Q := Qred (on_grid (ulp_exp x) x).

(** [a - b] and [a * b] on doubles. *)
Definition fsub (a b : Q) : Q := round64 (a - b).
Definition fmul (a b : Q) : Q := round64 (a * b).

#[global] Arguments round64 : simpl never.
#[global] Arguments fsub : simpl never.
#[global] Arguments fmul : simpl never.

End Binary64.
Import Binary64.

(** ** Data *)

Definition Embedding : Type := list Q.

Record Box := mkBox { bx : Z; by_ : Z; bw : Z; bh : Z }.

(** [a < b] on scores, as a boolean. *)
Definition Qltb (a b : Q) : bool := negb (Qle_bool b a).

(** The external vision stack.  [detectMultiScale] is
  [face_cascade.detectMultiScale], [crop f b] is the slice
  [frame[y:y+h, x:x+w]], [shape] gives rows and columns, [var] is
  [np.var], [resize80] is [cv2.resize(img, (80, 80))], [represent] is
  [DeepFace.represent(...)[0]["embedding"]] and [cosine_similarity] is
  scikit-learn's, applied to two single vectors. *)
Class VisionProvider := {
  Frame : Type;
  Image : Type;
  detectMultiScale : Frame -> option (list Box);
  crop : Frame -> Box -> Image;
  shape : Image -> Z * Z;
  var : Image -> Q;
  resize80 : Image -> Image;
  represent : Image -> option Embedding;
  cosine_similarity : Embedding -> Embedding -> option Q
}.

(** The messages assigned to [status_text]. *)
Inductive Status :=
| SystemReady
| ShowOneFace
| FaceNotClear
| CouldNotProcess
| Welcome (best_id : option string) (percent : Q)
| AccessDenied (percent : Q)
| VerificationError
| Capturing (n : nat)
| Registered (user_id : string)
| FailedSaveError
| FailedOnlyFaces (n : nat)
| FailedErrorOccurred
| TotalRegistered (count : nat)
| ResetCompleted.

(** What the serial port does when a command is sent: a response line
  arrives within the second, nothing arrives, [arduino.write] raises,
  or reading the response raises. *)
Inductive LinkReply :=
| Ack (response : string)
| Timeout
| WriteError
| ReadError.

Inductive Button := SavedFaces | RegisterFace | Reset | Quit.

Section FaceLock.
Context {VP : VisionProvider}.

(** *** The identity store on disk *)

(** Content of [embeddings.pkl]: bytes that [pickle.load] rejects, or
    a pickled list of embeddings. *)
Inductive Pickle :=
| Corrupt
| Pickled (embs : list Embedding).

(** A directory [person_N]: the sample images written by [cv2.imwrite]
    in the order they were written, and [embeddings.pkl] if present. *)
Record PersonDir := mkPersonDir {
  jpgs : list Image;
  embeddings_pkl : option Pickle
}.

Inductive Entry :=
| RegularFile
| Directory (d : PersonDir).

(** *** Program state *)

Record State := mkState {
  status_text : Status;
  is_unlocked : bool;
  person_counter : Z;
  name_map : gmap Z string;
  button_clicked : option Button;
  last_lock_state : option bool;
  registration_in_progress : bool;
  (** [arduino] is a serial port object ([true]) or [None] ([false]). *)
  arduino : bool;
  (** The directory [SAVED_NAMES_PATH]. *)
  saved_names : gmap string Entry;
  (** History: every call of [send_serial_command], oldest first, with
      its argument and its return value. *)
  link_calls : list (string * bool);
  (** History: the lines written to the serial port, oldest first. *)
  serial_out : list string
}.

Definition set_status (v : Status) (s : State) : State :=
  mkState v (is_unlocked s) (person_counter s) (name_map s)
    (button_clicked s) (last_lock_state s) (registration_in_progress s)
    (arduino s) (saved_names s) (link_calls s) (serial_out s).

Definition set_is_unlocked (v : bool) (s : State) : State :=
  mkState (status_text s) v (person_counter s) (name_map s)
    (button_clicked s) (last_lock_state s) (registration_in_progress s)
    (arduino s) (saved_names s) (link_calls s) (serial_out s).

Definition set_person_counter (v : Z) (s : State) : State :=
  mkState (status_text s) (is_unlocked s) v (name_map s)
    (button_clicked s) (last_lock_state s) (registration_in_progress s)
    (arduino s) (saved_names s) (link_calls s) (serial_out s).

Definition set_name_map (v : gmap Z string) (s : State) : State :=
  mkState (status_text s) (is_unlocked s) (person_counter s) v
    (button_clicked s) (last_lock_state s) (registration_in_progress s)
    (arduino s) (saved_names s) (link_calls s) (serial_out s).

Definition set_button_clicked (v : option Button) (s : State) : State :=
  mkState (status_text s) (is_unlocked s) (person_counter s) (name_map s)
    v (last_lock_state s) (registration_in_progress s)
    (arduino s) (saved_names s) (link_calls s) (serial_out s).

Definition set_last_lock_state (v : option bool) (s : State) : State :=
  mkState (status_text s) (is_unlocked s) (person_counter s) (name_map s)
    (button_clicked s) v (registration_in_progress s)
    (arduino s) (saved_names s) (link_calls s) (serial_out s).

Definition set_registration_in_progress (v : bool) (s : State) : State :=
  mkState (status_text s) (is_unlocked s) (person_counter s) (name_map s)
    (button_clicked s) (last_lock_state s) v
    (arduino s) (saved_names s) (link_calls s) (serial_out s).

Definition set_saved_names (v : gmap string Entry) (s : State) : State :=
  mkState (status_text s) (is_unlocked s) (person_counter s) (name_map s)
    (button_clicked s) (last_lock_state s) (registration_in_progress s)
    (arduino s) v (link_calls s) (serial_out s).

Definition set_link (calls : list (string * bool)) (out : list string)
    (s : State) : State :=
  mkState (status_text s) (is_unlocked s) (person_counter s) (name_map s)
    (button_clicked s) (last_lock_state s) (registration_in_progress s)
    (arduino s) (saved_names s) calls out.

(** *** Face crops *)

(** [img.size == 0] for a three-channel crop. *)
Definition empty_image (img : Image) : bool :=
  (fst (shape img) =? 0) || (snd (shape img) =? 0).

Definition is_valid_face (img : Image) : bool :=
  if empty_image img then false
  else if (fst (shape img) <? 50) || (snd (shape img) <? 50) then false
  else Qltb 10 (var img) && Qltb (var img) 50000.

Definition extract_face_embedding (img : Image) : option Embedding :=
  if empty_image img then None
  else
    let img :=
      if (fst (shape img) <? 80) || (snd (shape img) <? 80)
      then resize80 img else img in
    represent img.

(** *** Device link *)

(** The line terminator of the serial protocol. *)
Definition newline : string := String "010"%char "".

(** [send_serial_command(command)]: nothing is written when [arduino]
    is [None]; otherwise the line is written and the port is polled for
    one second.  Any response line is an acknowledgement. *)
Definition send_serial_command (command : string) (reply : LinkReply)
    (s : State) : bool * State :=
  let '(result, written) :=
    if arduino s then
      match reply with
      | Ack _ => (true, [command +:+ newline])
      | Timeout => (false, [command +:+ newline])
      | WriteError => (false, [])
      | ReadError => (false, [command +:+ newline])
      end
    else (false, []) in
  (result,
   set_link (link_calls s ++ [(command, result)])
            (serial_out s ++ written) s).

(** *** Identity store queries *)

Definition is_directory (e : Entry) : bool :=
  match e with Directory _ => true | RegularFile => false end.

(** [os.listdir(SAVED_NAMES_PATH)]. *)
Definition listdir (root : gmap string Entry) : list (string * Entry) :=
  map_to_list root.

Definition get_face_count (s : State) : nat :=
  length (filter (fun ne => is_directory (snd ne) = true)
                 (listdir (saved_names s))).

(** *** Verification *)

(** The inner loop over the embeddings of one folder.  A comparison
    that raises ends the folder; the best pair found so far stays. *)
Fixpoint scan_saved_embs (test_emb : Embedding) (folder : string)
    (saved_embs : list Embedding) (best : Q * option string)
    : Q * option string :=
  match saved_embs with
  | [] => best
  | emb :: rest =>
      match cosine_similarity test_emb emb with
      | None => best
      | Some score =>
          scan_saved_embs test_emb folder rest
            (if Qltb (fst best) score then (score, Some folder) else best)
      end
  end.

(** One iteration of the loop over the folders. *)
Definition scan_folder (test_emb : Embedding)
    (best : Q * option string) (ne : string * Entry)
    : Q * option string :=
  match snd ne with
  | RegularFile => best
  | Directory d =>
      match embeddings_pkl d with
      | None => best
      | Some Corrupt => best
      | Some (Pickled saved_embs) =>
          scan_saved_embs test_emb (fst ne) saved_embs best
      end
  end.

Definition best_match (test_emb : Embedding) (root : gmap string Entry)
    : Q * option string :=
  foldl (scan_folder test_emb) (0%Q, None) (listdir root).

(** The triple returned by [verify_face]: decision, box, confidence. *)
Definition Verdict : Type := bool * option Box * option Q.

Definition decision (v : Verdict) : bool := fst (fst v).
Definition verdict_box (v : Verdict) : option Box := snd (fst v).
Definition verdict_confidence (v : Verdict) : option Q := snd v.

Definition verify_face (frame : Frame) (s : State) : Verdict * State :=
  match detectMultiScale frame with
  | None => ((false, None, None), set_status VerificationError s)
  | Some faces =>
      match faces with
      | [face] =>
          let face_img := crop frame face in
          if negb (is_valid_face face_img) then
            ((false, None, None), set_status FaceNotClear s)
          else
            match extract_face_embedding face_img with
            | None =>
                ((false, Some face, Some 0%Q),
                 set_status CouldNotProcess s)
            | Some test_emb =>
                let '(best_score, best_id) :=
                  best_match test_emb (saved_names s) in
                let confidence_percent := fmul best_score 100 in
                if Qltb CONFIDENCE_THRESHOLD best_score then
                  ((true, Some face, Some confidence_percent),
                   set_status (Welcome best_id confidence_percent) s)
                else
                  ((false, Some face, Some confidence_percent),
                   set_status (AccessDenied confidence_percent) s)
            end
      | _ => ((false, None, None), set_status ShowOneFace s)
      end
  end.

(** *** File operations on the store *)

(** The two names derived from the counter: the returned label
    [Person_N] and the directory [person_N]. *)
Definition user_id_of (n : Z) : string := "Person_" +:+ pretty n.
Definition user_dir_of (n : Z) : string := "person_" +:+ pretty n.

(** [os.makedirs(user_dir, exist_ok=True)]: creates the directory when
    the name is free, keeps an existing directory as it is, and raises
    when the name is taken by a regular file. *)
Definition makedirs (user_dir : string) (s : State) : option State :=
  match saved_names s !! user_dir with
  | None =>
      Some (set_saved_names
              (<[user_dir := Directory (mkPersonDir [] None)]> (saved_names s))
              s)
  | Some (Directory _) => Some s
  | Some RegularFile => None
  end.

(** [shutil.rmtree(user_dir, ignore_errors=True)]: removes a directory
    with its content; on anything else the error is swallowed. *)
Definition rmtree (user_dir : string) (s : State) : State :=
  match saved_names s !! user_dir with
  | Some (Directory _) => set_saved_names (delete user_dir (saved_names s)) s
  | _ => s
  end.

(** [cv2.imwrite(user_dir/<uuid4>.jpg, face_img)]: one more sample file
    in the directory.  OpenCV returns [False] instead of raising when the
    directory is not there. *)
Definition imwrite (user_dir : string) (face_img : Image) (s : State)
    : State :=
  match saved_names s !! user_dir with
  | Some (Directory d) =>
      set_saved_names
        (<[user_dir :=
             Directory (mkPersonDir (jpgs d ++ [face_img]) (embeddings_pkl d))]>
           (saved_names s))
        s
  | _ => s
  end.

(** [open(user_dir/embeddings.pkl, "wb")] followed by [pickle.dump]:
    [None] when either raises.  [disk_ok] tells whether the operating
    system accepts the write. *)
Definition dump_embeddings (user_dir : string) (embs : list Embedding)
    (disk_ok : bool) (s : State) : option State :=
  if disk_ok then
    match saved_names s !! user_dir with
    | Some (Directory d) =>
        Some (set_saved_names
                (<[user_dir :=
                     Directory (mkPersonDir (jpgs d) (Some (Pickled embs)))]>
                   (saved_names s))
                s)
    | _ => None
    end
  else None.

(** *** Enrollment *)

(** What the environment supplies to one evaluation of the [while]
    condition and the iteration that follows it: the clock reading of the
    condition, the result of [cap.read()] ([None] when [ret] is false),
    the clock reading of the spacing test, the clock reading stored in
    [last_capture], and the value of [cv2.waitKey(1)]. *)
Record Tick := mkTick {
  tk_now : Q;
  tk_frame : option Frame;
  tk_check : Q;
  tk_stamp : Q;
  tk_key : Z
}.

(** The locals of [register_face].  [stamps] is history: the values
    assigned to [last_capture] at the captures, oldest first. *)
Record Session := mkSession {
  faces : list Image;
  embeddings : list Embedding;
  last_capture : Q;
  stamps : list Q
}.

Definition new_session : Session := mkSession [] [] 0 [].

(** How control leaves the loop body, and the loop. *)
Inductive Flow := Next | Break | Raise.

(** The test [is_valid_face(face_img) and time.time() - last_capture > 0.5]. *)
Definition capture_allowed (face_img : Image) (tk : Tick) (ses : Session)
    : bool :=
  is_valid_face face_img
  && Qltb CAPTURE_SPACING (fsub (tk_check tk) (last_capture ses)).

(** The block under [if len(faces_detected) == 1]. *)
Definition capture (user_dir : string) (frame : Frame) (face : Box)
    (tk : Tick) (ses : Session) (s : State) : Session * State :=
  let face_img := crop frame face in
  if capture_allowed face_img tk ses then
    match extract_face_embedding face_img with
    | Some emb =>
        let s := imwrite user_dir face_img s in
        let ses :=
          mkSession (faces ses ++ [face_img]) (embeddings ses ++ [emb])
                    (tk_stamp tk) (stamps ses ++ [tk_stamp tk]) in
        (ses, set_status (Capturing (length (faces ses))) s)
    | None => (ses, s)
    end
  else (ses, s).

(** The [ESC] test on [cv2.waitKey(1) & 0xFF]. *)
Definition esc_pressed (tk : Tick) : bool :=
  Z.land (tk_key tk) 255 =? 27.

(** One iteration of the capture loop. *)
Definition register_body (user_dir : string) (tk : Tick) (ses : Session)
    (s : State) : Flow * (Session * State) :=
  match tk_frame tk with
  | None => (Next, (ses, s))
  | Some frame =>
      match detectMultiScale frame with
      | None => (Raise, (ses, s))
      | Some faces_detected =>
          let st :=
            match faces_detected with
            | [face] => capture user_dir frame face tk ses s
            | _ => (ses, s)
            end in
          ((if esc_pressed tk then Break else Next), st)
      end
  end.

(** The condition of the [while]. *)
Definition loop_condition (start_time : Q) (tk : Tick) (ses : Session)
    : bool :=
  Qltb (fsub (tk_now tk) start_time) REGISTRATION_DURATION
  && (length (faces ses) <? MAX_REGISTRATION_IMAGES)%nat.

(** The capture loop over the ticks the environment supplies.  [None]:
    the ticks ran out while the loop was still running.  [Next] in the
    result means that the condition ended the loop. *)
Fixpoint register_loop (user_dir : string) (start_time : Q)
    (ticks : list Tick) (ses : Session) (s : State)
    : option (Flow * (Session * State)) :=
  match ticks with
  | [] => None
  | tk :: rest =>
      if loop_condition start_time tk ses then
        match register_body user_dir tk ses s with
        | (Next, (ses, s)) => register_loop user_dir start_time rest ses s
        | exit => Some exit
        end
      else Some (Next, (ses, s))
  end.

(** The three handlers that give up the session: each removes the
    directory of the session and reports. *)
Definition abort (why : Status) (user_dir : string) (s : State) : State :=
  set_registration_in_progress false (set_status why (rmtree user_dir s)).

(** The code after the loop, from [if len(faces) >= MIN_REGISTRATION_FACES]
    to the return. *)
Definition register_finish (user_id user_dir : string) (disk_ok : bool)
    (reply : LinkReply) (ses : Session) (s : State)
    : option string * State :=
  if (MIN_REGISTRATION_FACES <=? length (faces ses))%nat then
    match dump_embeddings user_dir (embeddings ses) disk_ok s with
    | Some s =>
        let s := set_name_map (<[person_counter s := user_id]> (name_map s)) s in
        let s := set_person_counter (person_counter s + 1) s in
        let s := set_status (Registered user_id) s in
        let s := snd (send_serial_command "unlock" reply s) in
        let s := set_registration_in_progress false s in
        (Some user_id, set_registration_in_progress false s)
    | None => (None, abort FailedSaveError user_dir s)
    end
  else (None, abort (FailedOnlyFaces (length (faces ses))) user_dir s).

(** The state in which the body of [register_face] runs: the flag is
    up. *)
Definition register_entry (s : State) : State :=
  set_registration_in_progress true s.

(** The values the globals take while the capture loop runs, as the
    main thread sees them: the state after each iteration that ran, in
    order. *)
Fixpoint register_loop_states (user_dir : string) (start_time : Q)
    (ticks : list Tick) (ses : Session) (s : State) : list State :=
  match ticks with
  | [] => []
  | tk :: rest =>
      if loop_condition start_time tk ses then
        match register_body user_dir tk ses s with
        | (Next, (ses, s)) =>
            s :: register_loop_states user_dir start_time rest ses s
        | (_, (_, s)) => [s]
        end
      else []
  end.

(** [register_face(cap)] as a run.  [start_time] is the clock reading
    taken before the loop, [ticks] what the camera, the clock and the
    keyboard supply, [disk_ok] and [reply] the behaviour of the disk and
    of the serial port at the commit.  The first component holds the
    values the globals take during the call, as the main thread sees
    them, from the assignment [registration_in_progress = True] to the
    exit of the loop: the state after that assignment, the state after
    [os.makedirs] when it does not raise, and the states of the loop.
    The second is the return value with the state of the return; [None]:
    the call has not returned within [ticks]. *)
Definition register_face_run (start_time : Q) (ticks : list Tick)
    (disk_ok : bool) (reply : LinkReply) (s : State)
    : list State * option (option string * State) :=
  let user_id := user_id_of (person_counter s) in
  let user_dir := user_dir_of (person_counter s) in
  let s := register_entry s in
  match makedirs user_dir s with
  | None => ([s], Some (None, abort FailedErrorOccurred user_dir s))
  | Some s0 =>
      (s :: s0 :: register_loop_states user_dir start_time ticks
                    new_session s0,
       match register_loop user_dir start_time ticks new_session s0 with
       | None => None
       | Some (Raise, (_, s)) =>
           Some (None, abort FailedErrorOccurred user_dir s)
       | Some (_, (ses, s)) =>
           Some (register_finish user_id user_dir disk_ok reply ses s)
       end)
  end.

(** What the call returns. *)
Definition register_face (start_time : Q) (ticks : list Tick)
    (disk_ok : bool) (reply : LinkReply) (s : State)
    : option (option string * State) :=
  snd (register_face_run start_time ticks disk_ok reply s).

(** What the main thread can see of the globals while the call runs. *)
Definition register_face_states (start_time : Q) (ticks : list Tick)
    (disk_ok : bool) (reply : LinkReply) (s : State) : list State :=
  fst (register_face_run start_time ticks disk_ok reply s).

(** *** Control panel *)

Definition is_button_clicked (x y : Z) : option Button :=
  if (950 <=? x) && (x <=? 1150) then
    if (50 <=? y) && (y <=? 100) then Some SavedFaces
    else if (120 <=? y) && (y <=? 170) then Some RegisterFace
    else if (190 <=? y) && (y <=? 240) then Some Reset
    else if (500 <=? y) && (y <=? 550) then Some Quit
    else None
  else None.

(** What a click asks the process to do beyond updating the state. *)
Inductive Request := Nothing | StartRegistration | ExitProcess.

(** The [reset] branch of [on_mouse]: [SAVED_NAMES_PATH] is removed with
    everything below it and created again, empty. *)
Definition reset_store (reply : LinkReply) (s : State) : State :=
  let s := set_saved_names ∅ s in
  let s := set_person_counter 1 s in
  let s := set_name_map ∅ s in
  let s := set_is_unlocked false s in
  let s := set_status ResetCompleted s in
  snd (send_serial_command "reset" reply s).

(** [on_mouse]: [lbuttondown] is [event == cv2.EVENT_LBUTTONDOWN].  The
    thread of the [register_face] branch and the exit of the [quit]
    branch are returned as requests. *)
Definition on_mouse (lbuttondown : bool) (x y : Z) (reply : LinkReply)
    (s : State) : Request * State :=
  if lbuttondown && negb (registration_in_progress s) then
    let s := set_button_clicked (is_button_clicked x y) s in
    match button_clicked s with
    | Some SavedFaces =>
        (Nothing, set_status (TotalRegistered (get_face_count s)) s)
    | Some RegisterFace => (StartRegistration, s)
    | Some Reset => (Nothing, reset_store reply s)
    | Some Quit => (ExitProcess, snd (send_serial_command "lock" reply s))
    | None => (Nothing, s)
    end
  else (Nothing, s).

(** *** Lock controller *)

(** The command chosen for a decision. *)
Definition lock_command (unlocked : bool) : string :=
  if unlocked then "lock_off" else "lock_on".

(** [last_lock_state != is_unlocked], where [last_lock_state] starts as
    [None]. *)
Definition state_changed (last : option bool) (unlocked : bool) : bool :=
  match last with
  | None => true
  | Some b => negb (Bool.eqb b unlocked)
  end.

(** The block of the main loop that runs when a verification is due:
    [verify_face], the command to the ESP32 if the state changed, and the
    bookkeeping.  The result carries the box and the confidence kept for
    the display. *)
Definition verification_cycle (frame : Frame) (reply : LinkReply)
    (s : State) : (option Box * option Q) * State :=
  let '((unlocked, face_box, confidence), s) := verify_face frame s in
  let s := set_is_unlocked unlocked s in
  let s :=
    if state_changed (last_lock_state s) (is_unlocked s) then
      let command := lock_command (is_unlocked s) in
      let s := snd (send_serial_command command reply s) in
      set_last_lock_state (Some (is_unlocked s)) s
    else s in
  ((face_box, confidence), set_button_clicked None s).

(** The locals of [main] that survive an iteration. *)
Record Display := mkDisplay {
  last_update_time : Q;
  face_box : option Box;
  confidence : option Q
}.

(** One iteration of [while True] in [main], up to the drawing:
    [read] is the result of [cap.read()], [current_time] the clock. *)
Definition main_iteration (read : option Frame) (current_time : Q)
    (reply : LinkReply) (d : Display) (s : State) : Display * State :=
  match read with
  | None => (d, s)
  | Some frame =>
      if Qltb UPDATE_INTERVAL (fsub current_time (last_update_time d))
         && negb (registration_in_progress s)
      then
        let '((box, conf), s) := verification_cycle frame reply s in
        (mkDisplay current_time box conf, s)
      else (d, s)
  end.

(** *** Vocabulary of the enrollment properties *)

(** The embedding a tick offers, the spacing test left aside: the frame
    was read, shows exactly one face, the crop is valid and the
    extraction succeeds. *)
Definition tick_embedding (tk : Tick) : option Embedding :=
  match tk_frame tk with
  | Some frame =>
      match detectMultiScale frame with
      | Some [face] =>
          if is_valid_face (crop frame face)
          then extract_face_embedding (crop frame face)
          else None
      | _ => None
      end
  | None => None
  end.

(** Every reading of the list is more than the spacing interval after
    every reading before it. *)
Fixpoint spaced (l : list Q) : Prop :=
  match l with
  | [] => True
  | t :: later =>
      Forall (fun u => (CAPTURE_SPACING < u - t)%Q) later /\ spaced later
  end.

(** The clock does not run backwards between the spacing test of a tick
    and the assignment to [last_capture]. *)
Definition clock_monotone (tk : Tick) : Prop :=
  (tk_check tk <= tk_stamp tk)%Q.

(** The clock reading of the tick reaches the time cap of a session
    started at [start_time]. *)
Definition time_is_up (start_time : Q) (tk : Tick) : Prop :=
  (REGISTRATION_DURATION <= tk_now tk - start_time)%Q.

(** *** Histories of one process *)

(** The state in which [main] starts its loop: the initial values of the
    globals, the serial port as [init_serial] left it, and the store as
    earlier runs left it on disk. *)
Definition initial_state (port : bool) (disk : gmap string Entry) : State :=
  mkState SystemReady false 1 ∅ None None false port disk [] [].

(** The user actions of one process: a click on the panel, or a whole
    registration session run to its return. *)
Inductive Action :=
| Click (x y : Z) (reply : LinkReply)
| Enroll (start_time : Q) (ticks : list Tick) (disk_ok : bool)
    (reply : LinkReply).

(** The handle of the identity a call committed: the value of
    [person_counter] the call started from. *)
Definition issued (before : State) (result : option string) : list Z :=
  match result with
  | Some _ => [person_counter before]
  | None => []
  end.

(** Runs the actions in order and collects the handles issued.  [None]:
    some session did not return. *)
Fixpoint run (actions : list Action) (s : State) : option (list Z * State) :=
  match actions with
  | [] => Some ([], s)
  | Click x y reply :: rest => run rest (snd (on_mouse true x y reply s))
  | Enroll start_time ticks disk_ok reply :: rest =>
      match register_face start_time ticks disk_ok reply s with
      | None => None
      | Some (result, s') =>
          match run rest s' with
          | None => None
          | Some (handles, s'') => Some (issued s result ++ handles, s'')
          end
      end
  end.

Definition is_reset_click (a : Action) : bool :=
  match a with
  | Click x y _ =>
      match is_button_clicked x y with Some Reset => true | _ => false end
  | Enroll _ _ _ _ => false
  end.

(** *** Serial start-up *)

Definition set_arduino (v : bool) (s : State) : State :=
  mkState (status_text s) (is_unlocked s) (person_counter s) (name_map s)
    (button_clicked s) (last_lock_state s) (registration_in_progress s)
    v (saved_names s) (link_calls s) (serial_out s).

(** [sub in s] on strings. *)
Fixpoint contains (sub s : string) : bool :=
  String.prefix sub s
  || match s with
     | EmptyString => false
     | String _ rest => contains sub rest
     end.

(** What happens when [init_serial] opens the port: [serial.Serial]
    raises, the write of the ping raises, reading the answer raises, or
    the stripped answer line is [response]. *)
Inductive PortOpening :=
| OpenRaises
| PingRaises
| AnswerRaises
| Responds (response : string).

(** [init_serial()]: the port object is assigned to [arduino] first and
    dropped again by the handler of any exception; the result tells
    whether the answer to the ping contains [READY]. *)
Definition init_serial (o : PortOpening) (s : State) : bool * State :=
  let pinged s :=
    set_link (link_calls s) (serial_out s ++ ["ping" +:+ newline]) s in
  match o with
  | OpenRaises => (false, set_arduino false s)
  | PingRaises => (false, set_arduino false s)
  | AnswerRaises => (false, set_arduino false (pinged s))
  | Responds response =>
      (contains "READY" response, set_arduino true (pinged s))
  end.

(** The serial part of the start of [main]: a ping through
    [send_serial_command] when [init_serial] reports a connection. *)
Definition main_serial (o : PortOpening) (reply : LinkReply) (s : State)
    : State :=
  let '(serial_connected, s) := init_serial o s in
  if serial_connected then snd (send_serial_command "ping" reply s) else s.

(** *** The ESP32 camera *)

(** The attributes of [ESP32Camera]: [cam_cap] tells that [self.cap] is
    an open stream, [cam_frame] is [self.frame]. *)
Record ESP32Camera := mkCamera {
  cam_cap : bool;
  cam_connected : bool;
  cam_frame : option Frame;
  cam_running : bool
}.

(** [ESP32Camera()]. *)
Definition new_camera : ESP32Camera := mkCamera false false None false.

(** A [cap.read()] on the stream: it raises, or returns a frame
    ([ret] true) or none. *)
Inductive StreamRead :=
| ReadRaises
| ReadReturns (r : option Frame).

(** [connect()], where a raise is one of [cv2.VideoCapture] itself.  The
    frame of the test read is not kept. *)
Definition connect (test : StreamRead) (cam : ESP32Camera)
    : bool * ESP32Camera :=
  match test with
  | ReadReturns (Some _) => (true, mkCamera true true (cam_frame cam) true)
  | ReadReturns None =>
      (false, mkCamera false false (cam_frame cam) (cam_running cam))
  | ReadRaises =>
      (false, mkCamera (cam_cap cam) false (cam_frame cam) (cam_running cam))
  end.

(** One turn of the loop of [_stream_reader]: nothing when the loop has
    ended, the new frame when the read gives one, a pause otherwise. *)
Definition stream_reader_step (cam : ESP32Camera) (r : StreamRead)
    : ESP32Camera :=
  if cam_running cam && cam_cap cam then
    match r with
    | ReadReturns (Some frame) =>
        mkCamera (cam_cap cam) (cam_connected cam) (Some frame)
                 (cam_running cam)
    | _ => cam
    end
  else cam.

(** [read()]: the latest frame, or [None] for [(False, None)]. *)
Definition read (cam : ESP32Camera) : option Frame :=
  if cam_connected cam then cam_frame cam else None.

(** [release()]. *)
Definition release (cam : ESP32Camera) : ESP32Camera :=
  mkCamera false false (cam_frame cam) false.

(** *** Layout *)

(** [s[i:j]] for [i <= j]. *)
Definition slice (s : string) (i j : nat) : string :=
  string_of_list_ascii (take (j - i) (drop i (list_ascii_of_string s))).

(** [range(0, n, step)]. *)
Definition range_step (n step : nat) : list nat :=
  map (fun k => step * k)%nat (seq 0 ((n + (step - 1)) / step)).

(** The list [status_lines] of [draw_layout]. *)
Definition status_lines (status : string) : list string :=
  map (fun i => slice status i (i + 35))
      (range_step (String.length status) 35).

(** The lines [draw_layout] writes, top to bottom: [status_lines[:3]]. *)
Definition drawn_status_lines (status : string) : list string :=
  take 3 (status_lines status).

(** The test [face_box and confidence] that guards the drawing of the
    box: a tuple of four is true, [None] and zero are false. *)
Definition box_drawn (face_box : option Box) (confidence : option Q) : bool :=
  match face_box, confidence with
  | Some _, Some c => negb (Qeq_bool c 0)
  | _, _ => false
  end.

(** The list [buttons] of [draw_layout]: each button with the top of its
    rectangle, which spans from [(950, top)] to [(1150, top + 50)]. *)
Definition buttons : list (Button * Z) :=
  [(SavedFaces, 50); (RegisterFace, 120); (Reset, 190); (Quit, 500)].

Definition in_button (top x y : Z) : Prop :=
  950 <= x <= 1150 /\ top <= y <= top + 50.

(** [overlay_image(bg, img, x, y, max_size)] on the sizes of [bg] and
    [img]: the width and height of the block at [(x, y)] that the function
    resizes the image to and writes, or [None] when one of its checks
    makes it return before that. *)
Definition overlay_image (bg_w bg_h img_w img_h x y : Z) (max_size : Z * Z)
    : option (Z * Z) :=
  if (bg_w <=? x) || (bg_h <=? y) || (x <? 0) || (y <? 0) then None
  else
    let new_w := Z.min (Z.min (fst max_size) (bg_w - x)) img_w in
    let new_h := Z.min (Z.min (snd max_size) (bg_h - y)) img_h in
    if (new_w <=? 0) || (new_h <=? 0) then None else Some (new_w, new_h).

(** *** Vocabulary of the further properties *)

(** [emb] is one of the embeddings pickled in the directory [folder]. *)
Definition stored (root : gmap string Entry) (folder : string)
    (emb : Embedding) : Prop :=
  exists d embs,
    root !! folder = Some (Directory d)
    /\ embeddings_pkl d = Some (Pickled embs)
    /\ emb ∈ embs.

(** [best] is a pair the search can hold: the initial one, or the score
    of a stored embedding with the directory that holds it. *)
Definition attained (root : gmap string Entry) (test_emb : Embedding)
    (best : Q * option string) : Prop :=
  best = (0%Q, None)
  \/ exists folder emb score,
       stored root folder emb
       /\ cosine_similarity test_emb emb = Some score
       /\ best = (score, Some folder).

(** No directory of the store is named after the counter or after a
    later value of it. *)
Definition counter_ahead (s : State) : Prop :=
  forall k, person_counter s <= k -> saved_names s !! user_dir_of k = None.

(** The frame a read of the stream delivers, if any. *)
Definition delivered (r : StreamRead) : option Frame :=
  match r with
  | ReadReturns (Some frame) => Some frame
  | _ => None
  end.

(** The iterations of the main loop, run in order: each with the result
    of [cap.read()], the clock and the answer of the link. *)
Definition main_loop (inputs : list (option Frame * Q * LinkReply))
    (d : Display) (s : State) : Display * State :=
  foldl (fun ds '(read, current_time, reply) =>
           main_iteration read current_time reply (fst ds) (snd ds))
        (d, s) inputs.

End FaceLock.

(** ** A concrete vision provider for the examples *)

Module Fixture.

(** A crop that carries what the provider would compute from it. *)
Record ToyImage := mkToyImage {
  ti_rows : Z;
  ti_cols : Z;
  ti_var : Q;
  ti_emb : option Embedding
}.

(** A frame that carries the detector's answer and the crop of its
    face. *)
Record ToyFrame := mkToyFrame {
  tf_faces : option (list Box);
  tf_img : ToyImage
}.

Fixpoint dot (a b : Embedding) : option Q :=
  match a, b with
  | [], [] => Some 0%Q
  | x :: a, y :: b =>
      match dot a b with
      | Some r => Some (x * y + r)%Q
      | None => None
      end
  | _, _ => None
  end.

Definition toy_vision : VisionProvider := {|
  Frame := ToyFrame;
  Image := ToyImage;
  detectMultiScale := tf_faces;
  crop := fun f _ => tf_img f;
  shape := fun i => (ti_rows i, ti_cols i);
  var := ti_var;
  resize80 := fun i => mkToyImage 80 80 (ti_var i) (ti_emb i);
  represent := ti_emb;
  cosine_similarity := dot
|}.

#[local] Existing Instance toy_vision.

Definition box0 : Box := mkBox 10 20 120 120.
Definition box1 : Box := mkBox 300 40 100 100.

(** A clear 120 x 120 crop with embedding [e]. *)
Definition good_image (e : Embedding) : ToyImage :=
  mkToyImage 120 120 900 (Some e).

(** A frame showing one clear face with embedding [e]. *)
Definition one_face (e : Embedding) : ToyFrame :=
  mkToyFrame (Some [box0]) (good_image e).

Definition no_face : ToyFrame := mkToyFrame (Some []) (good_image []).

Definition two_faces : ToyFrame :=
  mkToyFrame (Some [box0; box1]) (good_image []).

(** A frame on which the detector raises. *)
Definition bad_frame : ToyFrame := mkToyFrame None (good_image []).

Definition emb_a : Embedding := [1; 0]%Q.
Definition emb_b : Embedding := [0; 1]%Q.

(** A tick at clock [t] (seconds after the epoch of the example)
    showing [f], all three clock readings equal, no key pressed. *)
Definition tick_at (t : Q) (f : ToyFrame) : Tick :=
  mkTick t (Some f) t t (-1).

(** The tick whose clock reading ends a session started at 0. *)
Definition time_up : Tick :=
  mkTick 7 None 7 7 (-1).

(** A session started at clock 0 that sees a clear face every 5/8 s,
    [n] times. *)
Definition captures_from (t : Q) (n : nat) : list (Tick) :=
  map (fun k => tick_at (Qred (t + (5 # 8) * inject_Z (Z.of_nat k)))
                        (one_face [Z.of_nat k # 1; 1]%Q))
      (seq 1 n).

(** The store a previous run left behind: one committed identity. *)
Definition person_1 : Entry :=
  Directory (mkPersonDir [good_image emb_a; good_image emb_a; good_image emb_a]
                         (Some (Pickled [emb_a; emb_a; emb_a]))).

Definition disk_with_person_1 : gmap string (Entry) :=
  {[ "person_1"%string := person_1 ]}.

(** A first run: the store is empty and the port is open. *)
Definition fresh : State := initial_state true ∅.

(** A later run: the process has just started, the counter is 1 again,
    and [person_1] of the earlier run is on the disk. *)
Definition restarted : State := initial_state true disk_with_person_1.

(** [restarted] after one verification cycle on an empty scene: the
    controller believes the lock is locked. *)
Definition locked : State :=
  snd (verification_cycle no_face (Ack "LOCKED") restarted).

(** [fresh] inside [register_face], after [os.makedirs]: the flag is up
    and the directory of the session is there, empty. *)
Definition enrolling : State :=
  set_saved_names {[ "person_1"%string := Directory (mkPersonDir [] None) ]}
    (register_entry fresh).

(** Nine clear faces 5/8 s apart, then the time cap. *)
Definition nine_ticks : list Tick := captures_from 0 9 ++ [time_up].

(** Three clear faces 5/8 s apart, then the time cap. *)
Definition three_ticks : list Tick := captures_from 0 3 ++ [time_up].

(** One frame without a face, on which the user presses ESC. *)
Definition cancelled_ticks : list Tick :=
  [mkTick (1 # 8) (Some no_face) (1 # 8) (1 # 8) 27].

(** The doubles written [0.3], [0.6], [0.8], [1.1], [1.7] and [2.7]. *)
Definition d0_3 : Q := 5404319552844595 # 18014398509481984.
Definition d0_6 : Q := 5404319552844595 # 9007199254740992.
Definition d0_8 : Q := 3602879701896397 # 4503599627370496.
Definition d1_1 : Q := 2476979795053773 # 2251799813685248.
Definition d1_7 : Q := 7656119366529843 # 4503599627370496.
Definition d2_7 : Q := 3039929748475085 # 1125899906842624.

(** The double written [0.41]. *)
Definition d0_41 : Q := 7385903388887613 # 18014398509481984.

(** Clear faces at [0.6], [1.1] and [1.7]: the difference [1.1 - 0.6]
    is the double after [0.5]. *)
Definition brisk_ticks : list Tick :=
  [tick_at d0_6 (one_face [1; 1]%Q); tick_at d1_1 (one_face [2; 1]%Q);
   tick_at d1_7 (one_face [3; 1]%Q); time_up].

(** Clear faces at 5/8, 15/16 and 5/4 s: the second comes 5/16 s after
    the first. *)
Definition rushed_ticks : list Tick :=
  [tick_at (5 # 8) (one_face [1; 1]%Q); tick_at (15 # 16) (one_face [2; 1]%Q);
   tick_at (5 # 4) (one_face [3; 1]%Q); time_up].

(** The clock is set back between the spacing test of the second tick,
    at 2 s, and the assignment to [last_capture], at 9/8 s; a third face
    comes at 7/4 s. *)
Definition set_back_ticks : list Tick :=
  [tick_at 1 (one_face [1; 1]%Q);
   mkTick 2 (Some (one_face [2; 1]%Q)) 2 (9 # 8) (-1);
   tick_at (7 # 4) (one_face [3; 1]%Q);
   time_up].

(** A session that commits, a reset click, a session that commits. *)
Definition reset_between_sessions : list Action :=
  [Enroll 0 three_ticks true (Ack "OK");
   Click 1000 200 (Ack "OK");
   Enroll 0 three_ticks true (Ack "OK")].

(** Two sessions that commit around one that is cancelled and a click on
    the count button. *)
Definition sessions_without_reset : list Action :=
  [Enroll 0 three_ticks true (Ack "OK");
   Enroll 0 cancelled_ticks true (Ack "OK");
   Click 1000 60 (Ack "OK");
   Enroll 0 three_ticks true Timeout].

(** The store of an earlier run with two identities. *)
Definition two_on_disk : gmap string Entry :=
  <[ "person_7"%string := person_1 ]> disk_with_person_1.

(** A process that has just started over [two_on_disk]. *)
Definition crowded : State := initial_state true two_on_disk.

(** A process that has just started over a store in which [person_1]
    is a regular file. *)
Definition file_in_the_way : State :=
  initial_state true {[ "person_1"%string := RegularFile ]}.

(** A camera right after a [connect] that succeeded. *)
Definition connected_camera : ESP32Camera :=
  snd (connect (ReadReturns (Some no_face)) new_camera).

(** What the reader gets from the stream: a frame, a raise, a second
    frame, a read without a frame. *)
Definition stream_reads : list StreamRead :=
  [ReadReturns (Some (one_face emb_a)); ReadRaises;
   ReadReturns (Some (one_face emb_b)); ReadReturns None].

End Fixture.


(** ** Properties *)

(** *** Binary64 rounding *)

Section Rounding.
Local Open Scope Q_scope.

Lemma Qltb_lt (a b : Q) : Qltb a b = true <-> a < b.
Proof.
  unfold Qltb. rewrite negb_true_iff. split.
  - intros H. destruct (Qlt_le_dec a b) as [Hlt|Hle]; [exact Hlt|].
    apply Qle_bool_iff in Hle. congruence.
  - intros Hlt. destruct (Qle_bool b a) eqn:E; [|reflexivity].
    apply Qle_bool_iff in E. exfalso. exact (Qlt_not_le _ _ Hlt E).
Qed.

Lemma Qltb_ge (a b : Q) : Qltb a b = false <-> b <= a.
Proof.
  unfold Qltb. rewrite negb_false_iff. apply Qle_bool_iff.
Qed.

Lemma pow2_pos (e : Z) : 0 < 2 ^ e.
Proof. apply Qpower_0_lt. reflexivity. Qed.

Lemma pow2_le (a b : Z) : (a <= b)%Z -> 2 ^ a <= 2 ^ b.
Proof. intros H. apply Qpower_le_compat_l; [exact H | discriminate]. Qed.

Lemma pow2_plus (a b : Z) : 2 ^ (a + b) == 2 ^ a * 2 ^ b.
Proof. apply Qpower_plus. discriminate. Qed.

Lemma pow2_cancel (g : Z) : 2 ^ g * 2 ^ (- g) == 1.
Proof. rewrite <- pow2_plus, Z.add_opp_diag_r. reflexivity. Qed.

Lemma pow2_inject (k : Z) : (0 <= k)%Z -> inject_Z (2 ^ k) == 2 ^ k.
Proof. intros H. rewrite Zpower_Qpower by exact H. reflexivity. Qed.

Lemma rne_bounds (x : Q) : (Qfloor x <= rne x <= Qfloor x + 1)%Z.
Proof.
  unfold rne.
  destruct (Qcompare (x - inject_Z (Qfloor x)) (1 # 2)); [|lia|lia].
  destruct (Z.even (Qfloor x)); lia.
Qed.

Lemma rne_mono (x y : Q) : x <= y -> (rne x <= rne y)%Z.
Proof.
  intros Hxy. pose proof (Qfloor_resp_le _ _ Hxy) as Hf.
  destruct (Z.eq_dec (Qfloor x) (Qfloor y)) as [E|NE].
  - unfold rne. rewrite <- E.
    destruct (Qcompare_spec (x - inject_Z (Qfloor x)) (1 # 2)) as [Hx|Hx|Hx];
      destruct (Qcompare_spec (y - inject_Z (Qfloor x)) (1 # 2)) as [Hy|Hy|Hy];
      try destruct (Z.even (Qfloor x)); try lia; exfalso; lra.
  - pose proof (rne_bounds x). pose proof (rne_bounds y). lia.
Qed.

Lemma rne_comp (x y : Q) : x == y -> rne x = rne y.
Proof.
  intros H. apply Z.le_antisymm; apply rne_mono; rewrite H; apply Qle_refl.
Qed.

Lemma rne_Z (n : Z) : rne (inject_Z n) = n.
Proof.
  unfold rne. rewrite Qfloor_Z.
  destruct (Qcompare_spec (inject_Z n - inject_Z n) (1 # 2)) as [H|H|H];
    [exfalso; lra | reflexivity | exfalso; lra].
Qed.

Lemma on_grid_mono (g : Z) (x y : Q) : x <= y -> on_grid g x <= on_grid g y.
Proof.
  intros H. unfold on_grid.
  apply Qmult_le_compat_r; [|apply Qlt_le_weak, pow2_pos].
  rewrite <- Zle_Qle. apply rne_mono.
  apply Qmult_le_compat_r; [exact H | apply Qlt_le_weak, pow2_pos].
Qed.

Lemma on_grid_fix (g k : Z) (x : Q) :
  x == inject_Z k * 2 ^ g -> on_grid g x == x.
Proof.
  intros H. unfold on_grid. rewrite (rne_comp _ (inject_Z k)), rne_Z.
  - symmetry. exact H.
  - rewrite H, <- Qmult_assoc, pow2_cancel. apply Qmult_1_r.
Qed.

Lemma on_grid_0 (g : Z) : on_grid g 0 == 0.
Proof. apply (on_grid_fix g 0). rewrite Qmult_0_l. reflexivity. Qed.

Lemma on_grid_pow2 (g e : Z) : (g <= e)%Z -> on_grid g (2 ^ e) == 2 ^ e.
Proof.
  intros H. apply (on_grid_fix g (2 ^ (e - g))).
  rewrite pow2_inject by lia. rewrite <- pow2_plus.
  replace (e - g + g)%Z with e by lia. reflexivity.
Qed.

Lemma on_grid_opp_pow2 (g e : Z) :
  (g <= e)%Z -> on_grid g (- 2 ^ e) == - 2 ^ e.
Proof.
  intros H. apply (on_grid_fix g (- 2 ^ (e - g))).
  rewrite inject_Z_opp, pow2_inject by lia.
  assert (E : - 2 ^ (e - g) * 2 ^ g == - (2 ^ (e - g) * 2 ^ g)) by ring.
  rewrite E, <- pow2_plus.
  replace (e - g + g)%Z with e by lia. reflexivity.
Qed.

Lemma ilog2_opp (x : Q) : ilog2 (- x) = ilog2 x.
Proof.
  destruct x as [n d]. unfold ilog2, Qopp, Qabs. simpl.
  rewrite Z.abs_opp. reflexivity.
Qed.

Lemma ilog2_spec (x : Q) :
  0 < x -> 2 ^ ilog2 x <= x /\ x < 2 ^ (ilog2 x + 1).
Proof.
  intros Hpos. destruct x as [n d].
  assert (Hn : (0 < n)%Z) by (revert Hpos; unfold Qlt; simpl; lia).
  pose proof (Z.log2_spec n Hn) as [Hn1 Hn2].
  pose proof (Z.log2_spec (Zpos d) (Pos2Z.is_pos d)) as [Hd1 Hd2].
  pose proof (Z.log2_nonneg n) as Ha.
  pose proof (Z.log2_nonneg (Zpos d)) as Hb.
  set (a := Z.log2 n) in *. set (b := Z.log2 (Zpos d)) in *.
  rewrite Zle_Qle, pow2_inject in Hn1 by exact Ha.
  rewrite Zlt_Qlt, pow2_inject in Hn2 by lia.
  rewrite Zle_Qle, pow2_inject in Hd1 by exact Hb.
  rewrite Zlt_Qlt, pow2_inject in Hd2 by lia.
  assert (HD : 0 < inject_Z (Zpos d)) by reflexivity.
  assert (Hx : n # d == inject_Z n / inject_Z (Zpos d)) by apply Qmake_Qdiv.
  assert (Hup : n # d < 2 ^ (a - b + 1)).
  { rewrite Hx. apply Qlt_shift_div_r; [exact HD|].
    eapply Qlt_le_trans; [exact Hn2|].
    replace (Z.succ a) with (a - b + 1 + b)%Z by lia. rewrite pow2_plus.
    apply Qmult_le_l; [apply pow2_pos | exact Hd1]. }
  assert (Hlow : 2 ^ (a - b - 1) < n # d).
  { rewrite Hx. apply Qlt_shift_div_l; [exact HD|].
    eapply Qlt_le_trans; [|exact Hn1].
    replace a with (a - b - 1 + Z.succ b)%Z at 2 by lia. rewrite pow2_plus.
    apply Qmult_lt_l; [apply pow2_pos | exact Hd2]. }
  unfold ilog2. cbn [Qnum Qden]. rewrite (Z.abs_eq n) by lia.
  fold a b.
  assert (Habs : Qabs (n # d) == n # d) by (apply Qabs_pos, Qlt_le_weak, Hpos).
  destruct (Qle_bool (2 ^ (a - b)) (Qabs (n # d))) eqn:Hle.
  - apply Qle_bool_iff in Hle. rewrite Habs in Hle. auto.
  - assert (Hlt : n # d < 2 ^ (a - b)).
    { apply Qnot_le_lt. intros H. rewrite <- Habs in H.
      apply Qle_bool_iff in H. congruence. }
    split; [apply Qlt_le_weak; exact Hlow|].
    replace (a - b - 1 + 1)%Z with (a - b)%Z by lia. exact Hlt.
Qed.

Lemma ilog2_mono (x y : Q) : 0 < x -> x <= y -> (ilog2 x <= ilog2 y)%Z.
Proof.
  intros Hx Hxy.
  destruct (ilog2_spec x Hx) as [Hx1 _].
  destruct (ilog2_spec y) as [_ Hy2]; [eapply Qlt_le_trans; eauto|].
  assert (H : 2 ^ ilog2 x < 2 ^ (ilog2 y + 1)).
  { eapply Qle_lt_trans; [exact Hx1|]. eapply Qle_lt_trans; eauto. }
  apply Qpower_lt_compat_l_inv in H; [lia | reflexivity].
Qed.

Lemma round64_eq (x : Q) : round64 x == on_grid (ulp_exp x) x.
Proof. apply Qred_correct. Qed.

Lemma on_grid_mono_pos (x y : Q) :
  0 < x -> x <= y -> on_grid (ulp_exp x) x <= on_grid (ulp_exp y) y.
Proof.
  intros Hx Hxy.
  pose proof (ilog2_mono x y Hx Hxy) as He.
  destruct (Z.eq_dec (ulp_exp x) (ulp_exp y)) as [E|NE];
    [rewrite E; apply on_grid_mono; exact Hxy|].
  unfold ulp_exp in *.
  destruct (ilog2_spec x Hx) as [_ Hx2].
  destruct (ilog2_spec y) as [Hy1 _]; [eapply Qlt_le_trans; eauto|].
  apply Qle_trans with (2 ^ ilog2 y).
  - rewrite <- (on_grid_pow2 (Z.max (ilog2 x - 52) (-1074)) (ilog2 y)) by lia.
    apply on_grid_mono. apply Qlt_le_weak.
    eapply Qlt_le_trans; [exact Hx2|]. apply pow2_le. lia.
  - rewrite <- (on_grid_pow2 (Z.max (ilog2 y - 52) (-1074)) (ilog2 y)) at 1
      by lia.
    apply on_grid_mono. exact Hy1.
Qed.

Lemma on_grid_mono_neg (x y : Q) :
  y < 0 -> x <= y -> on_grid (ulp_exp x) x <= on_grid (ulp_exp y) y.
Proof.
  intros Hy Hxy.
  assert (Hy' : 0 < - y) by lra.
  assert (Hyx : - y <= - x) by lra.
  pose proof (ilog2_mono _ _ Hy' Hyx) as He. rewrite !ilog2_opp in He.
  destruct (Z.eq_dec (ulp_exp x) (ulp_exp y)) as [E|NE];
    [rewrite E; apply on_grid_mono; exact Hxy|].
  unfold ulp_exp in *.
  destruct (ilog2_spec (- y) Hy') as [_ Hy2].
  destruct (ilog2_spec (- x)) as [Hx1 _]; [lra|].
  rewrite ilog2_opp in Hy2, Hx1.
  apply Qle_trans with (- 2 ^ ilog2 x).
  - rewrite <- (on_grid_opp_pow2 (Z.max (ilog2 x - 52) (-1074)) (ilog2 x))
      by lia.
    apply on_grid_mono. lra.
  - rewrite <- (on_grid_opp_pow2 (Z.max (ilog2 y - 52) (-1074)) (ilog2 x))
      by lia.
    apply on_grid_mono.
    assert (H : 2 ^ (ilog2 y + 1) <= 2 ^ ilog2 x) by (apply pow2_le; lia).
    lra.
Qed.

Lemma round64_mono (x y : Q) : x <= y -> round64 x <= round64 y.
Proof.
  intros Hxy. rewrite !round64_eq.
  destruct (Qlt_le_dec 0 x) as [Hx|Hx]; [apply on_grid_mono_pos; assumption|].
  destruct (Qlt_le_dec y 0) as [Hy|Hy]; [apply on_grid_mono_neg; assumption|].
  apply Qle_trans with 0.
  - rewrite <- (on_grid_0 (ulp_exp x)). apply on_grid_mono. exact Hx.
  - rewrite <- (on_grid_0 (ulp_exp y)) at 1. apply on_grid_mono. exact Hy.
Qed.

Lemma rne_near (x : Q) : Qabs (inject_Z (rne x) - x) <= 1 # 2.
Proof.
  apply Qabs_Qle_condition.
  pose proof (Qfloor_le x) as Hlo. pose proof (Qlt_floor x) as Hhi.
  rewrite inject_Z_plus in Hhi. unfold rne.
  destruct (Qcompare_spec (x - inject_Z (Qfloor x)) (1 # 2)) as [H|H|H];
    try destruct (Z.even (Qfloor x)); rewrite ?inject_Z_plus;
    change (inject_Z 1) with 1 in *; split; lra.
Qed.

(** The result of the rounding is a multiple of the unit in the last
    place, at most half a unit away. *)
Lemma round64_near (x : Q) :
  (exists m, round64 x == inject_Z m * 2 ^ ulp_exp x)
  /\ Qabs (round64 x - x) <= (1 # 2) * 2 ^ ulp_exp x.
Proof.
  split; [eexists; apply round64_eq|].
  rewrite round64_eq. unfold on_grid.
  set (g := ulp_exp x).
  assert (Hx : x == x * 2 ^ (- g) * 2 ^ g).
  { rewrite <- Qmult_assoc, (Qmult_comm (2 ^ (- g))), pow2_cancel. ring. }
  pose proof (rne_near (x * 2 ^ (- g))) as Hnear.
  pose proof (pow2_pos g) as Hpos.
  set (y := x * 2 ^ (- g)) in *.
  apply Qabs_Qle_condition in Hnear as [H1 H2].
  assert (E : inject_Z (rne y) * 2 ^ g - x == (inject_Z (rne y) - y) * 2 ^ g)
    by (rewrite Hx at 1; ring).
  assert (E' : - ((1 # 2) * 2 ^ g) == - (1 # 2) * 2 ^ g) by ring.
  apply Qabs_Qle_condition. rewrite E, E'.
  split; (apply Qmult_le_compat_r; [assumption | apply Qlt_le_weak, Hpos]).
Qed.

Lemma scaled_below (x : Q) :
  0 < x -> x * 2 ^ (- ulp_exp x) <= inject_Z (2 ^ 53).
Proof.
  intros Hx. destruct (ilog2_spec x Hx) as [_ Hhi].
  pose proof (pow2_pos (- ulp_exp x)) as Hpos.
  apply Qle_trans with (2 ^ (ilog2 x + 1) * 2 ^ (- ulp_exp x)).
  - apply Qmult_le_compat_r; [apply Qlt_le_weak, Hhi | apply Qlt_le_weak, Hpos].
  - rewrite <- pow2_plus, pow2_inject by lia. apply pow2_le.
    unfold ulp_exp. lia.
Qed.

(** The result of the rounding has a significand of at most 53 bits, or
    is the power of two that follows them. *)
Lemma round64_significand (x : Q) :
  exists m, round64 x == inject_Z m * 2 ^ ulp_exp x /\ (Z.abs m <= 2 ^ 53)%Z.
Proof.
  exists (rne (x * 2 ^ (- ulp_exp x))). split; [apply round64_eq|].
  destruct (Qlt_le_dec 0 x) as [Hx|Hx].
  - pose proof (rne_mono _ _ (scaled_below x Hx)) as Hhi.
    rewrite rne_Z in Hhi.
    assert (Hlo : (0 <= rne (x * 2 ^ (- ulp_exp x)))%Z).
    { rewrite <- (rne_Z 0). apply rne_mono.
      apply Qmult_le_0_compat; apply Qlt_le_weak; [exact Hx | apply pow2_pos]. }
    lia.
  - destruct (Qlt_le_dec x 0) as [Hneg|Hzero].
    + assert (Hx' : 0 < - x) by lra.
      pose proof (scaled_below (- x) Hx') as Hs.
      assert (Hu : ulp_exp (- x) = ulp_exp x)
        by (unfold ulp_exp; rewrite ilog2_opp; reflexivity).
      rewrite Hu in Hs.
      assert (Hlo : inject_Z (- 2 ^ 53) <= x * 2 ^ (- ulp_exp x)).
      { rewrite inject_Z_opp. lra. }
      apply rne_mono in Hlo. rewrite rne_Z in Hlo.
      assert (Hhi : (rne (x * 2 ^ (- ulp_exp x)) <= 0)%Z).
      { rewrite <- (rne_Z 0). apply rne_mono.
        pose proof (pow2_pos (- ulp_exp x)) as Hpos.
        assert (H : 0 <= - x * 2 ^ (- ulp_exp x))
          by (apply Qmult_le_0_compat; lra).
        change (inject_Z 0) with 0. lra. }
      lia.
    + set (p := 2 ^ (- ulp_exp x)).
      assert (E : x * p == inject_Z 0).
      { assert (H0 : x == 0) by lra. rewrite H0. ring. }
      rewrite (rne_comp _ _ E), rne_Z. simpl. lia.
Qed.

(** Rounding moves no number across a double. *)
Lemma round64_le (x c : Q) : round64 c == c -> x <= c -> round64 x <= c.
Proof. intros Hc H. rewrite <- Hc. apply round64_mono. exact H. Qed.

Lemma round64_ge (x c : Q) : round64 c == c -> c <= x -> c <= round64 x.
Proof. intros Hc H. rewrite <- Hc. apply round64_mono. exact H. Qed.

Lemma round64_gt (x c : Q) : round64 c == c -> c < round64 x -> c < x.
Proof.
  intros Hc H. apply Qnot_le_lt. intros Hle.
  apply (Qlt_not_le _ _ H). apply round64_le; assumption.
Qed.

Lemma round64_lt (x c : Q) : round64 c == c -> round64 x < c -> x < c.
Proof.
  intros Hc H. apply Qnot_le_lt. intros Hle.
  apply (Qlt_not_le _ _ H). apply round64_ge; assumption.
Qed.

(** The constants the script compares with are doubles. *)
Lemma CAPTURE_SPACING_double : round64 CAPTURE_SPACING == CAPTURE_SPACING.
Proof. vm_compute. reflexivity. Qed.

Lemma REGISTRATION_DURATION_double :
  round64 REGISTRATION_DURATION == REGISTRATION_DURATION.
Proof. vm_compute. reflexivity. Qed.

Lemma UPDATE_INTERVAL_double : round64 UPDATE_INTERVAL == UPDATE_INTERVAL.
Proof. vm_compute. reflexivity. Qed.

Lemma fmul_0_100 : fmul 0 100 = 0.
Proof. vm_compute. reflexivity. Qed.

(** The product is 0 or more for a score that is, and 40 or more for a
    score above the threshold. *)
Lemma fmul_100_nonnegative (score : Q) : 0 <= score -> 0 <= fmul score 100.
Proof.
  intros H. unfold fmul. apply round64_ge; [vm_compute; reflexivity|].
  apply Qmult_le_0_compat; [exact H | discriminate].
Qed.

Lemma fmul_100_accepted (score : Q) :
  CONFIDENCE_THRESHOLD < score -> 40 <= fmul score 100.
Proof.
  intros H. unfold fmul. apply round64_ge; [vm_compute; reflexivity|].
  unfold CONFIDENCE_THRESHOLD in H. lra.
Qed.

Lemma fmul_100_mono (a b : Q) : a <= b -> fmul a 100 <= fmul b 100.
Proof.
  intros H. unfold fmul. apply round64_mono.
  apply Qmult_le_compat_r; [exact H | discriminate].
Qed.

End Rounding.

Section Properties.
Context {VP : VisionProvider}.

(** *** Verification *)

(** [verify_face] touches nothing but [status_text]. *)
Lemma verify_face_state (frame : Frame) (s : State) :
  exists msg, snd (verify_face frame s) = set_status msg s.
Proof.
  unfold verify_face.
  destruct (detectMultiScale frame) as [[|face [|face' more]]|]; simpl; eauto.
  destruct (negb (is_valid_face (crop frame face))); simpl; eauto.
  destruct (extract_face_embedding (crop frame face)); simpl; eauto.
  destruct (best_match _ _) as [best_score best_id].
  destruct (Qltb CONFIDENCE_THRESHOLD best_score); simpl; eauto.
Qed.

(** C5. Whenever the detector returns a number of faces other than one,
    zero or two and more, [verify_face] returns the decision [False]
    with neither a box nor a confidence, whatever the state and the
    identity store hold. *)
Theorem verify_face_rejects_ambiguous_scene
    (frame : Frame) (s : State) (found : list Box) :
  detectMultiScale frame = Some found ->
  length found <> 1%nat ->
  fst (verify_face frame s) = (false, None, None).
Proof.
  intros Hdet Hlen. unfold verify_face. rewrite Hdet.
  destruct found as [|face [|face' more]]; simpl in *; congruence.
Qed.

(** A folder scan leaves the best pair alone on anything that is not a
    directory. *)
Lemma scan_folder_not_directory (test_emb : Embedding)
    (best : Q * option string) (ne : string * Entry) :
  is_directory (snd ne) = false -> scan_folder test_emb best ne = best.
Proof.
  unfold scan_folder. destruct (snd ne); simpl; [reflexivity | discriminate].
Qed.

Lemma foldl_scan_no_directory (test_emb : Embedding)
    (l : list (string * Entry)) (best : Q * option string) :
  length (filter (fun ne => is_directory (snd ne) = true) l) = 0%nat ->
  foldl (scan_folder test_emb) best l = best.
Proof.
  revert best. induction l as [|ne l IH]; intros best Hcount; [reflexivity|].
  rewrite filter_cons in Hcount. simpl.
  destruct (decide (is_directory (snd ne) = true)) as [Hd|Hd];
    [discriminate|].
  rewrite scan_folder_not_directory; [auto|].
  destruct (is_directory (snd ne)); congruence.
Qed.

(** With no identity directory in the store the search ends where it
    starts. *)
Lemma best_match_no_identity (test_emb : Embedding) (s : State) :
  get_face_count s = 0%nat ->
  best_match test_emb (saved_names s) = (0%Q, None).
Proof. apply foldl_scan_no_directory. Qed.

Lemma get_face_count_empty (s : State) :
  saved_names s = ∅ -> get_face_count s = 0%nat.
Proof.
  intros H. unfold get_face_count, listdir. rewrite H, map_to_list_empty.
  reflexivity.
Qed.

(** C7. With no identity in the store ([get_face_count] is 0, which an
    empty store satisfies), a frame with exactly one detected face whose
    crop is valid and whose embedding is extracted yields the decision
    [False], the box of the face and the confidence 0. *)
Theorem verify_face_empty_store
    (frame : Frame) (s : State) (face : Box) (test_emb : Embedding) :
  get_face_count s = 0%nat ->
  detectMultiScale frame = Some [face] ->
  is_valid_face (crop frame face) = true ->
  extract_face_embedding (crop frame face) = Some test_emb ->
  fst (verify_face frame s) = (false, Some face, Some 0%Q).
Proof.
  intros Hcount Hdet Hvalid Hemb. unfold verify_face.
  rewrite Hdet, Hvalid, Hemb. simpl.
  rewrite (best_match_no_identity _ _ Hcount). reflexivity.
Qed.

(** *** Device link and lock controller *)

(** A call of [send_serial_command] is recorded once and writes at most
    one line. *)
Lemma send_serial_command_calls (command : string) (reply : LinkReply)
    (s : State) :
  link_calls (snd (send_serial_command command reply s))
  = link_calls s ++ [(command, fst (send_serial_command command reply s))].
Proof.
  unfold send_serial_command.
  destruct (arduino s); [destruct reply|]; reflexivity.
Qed.

Lemma send_serial_command_wire (command : string) (reply : LinkReply)
    (s : State) :
  arduino s = true -> reply <> WriteError ->
  serial_out (snd (send_serial_command command reply s))
  = serial_out s ++ [command +:+ newline].
Proof.
  intros Hport Hreply. unfold send_serial_command. rewrite Hport.
  destruct reply; simpl; congruence.
Qed.

(** Only an acknowledgement on an open port makes the call return
    [True]. *)
Lemma send_serial_command_result (command : string) (reply : LinkReply)
    (s : State) :
  fst (send_serial_command command reply s) = true
  <-> arduino s = true /\ exists response, reply = Ack response.
Proof.
  unfold send_serial_command.
  destruct (arduino s); [destruct reply|]; simpl; split;
    try discriminate; try (intros [? [? ?]]; discriminate); eauto.
Qed.

Lemma state_changed_false (last : option bool) (d : bool) :
  state_changed last d = false <-> last = Some d.
Proof.
  destruct last as [[]|], d; simpl; split; congruence.
Qed.

(** What one verification cycle does to the lock controller, by cases on
    the test [last_lock_state != is_unlocked]. *)
Lemma verification_cycle_same (frame : Frame) (reply : LinkReply) (s : State) :
  last_lock_state s = Some (decision (fst (verify_face frame s))) ->
  link_calls (snd (verification_cycle frame reply s)) = link_calls s
  /\ serial_out (snd (verification_cycle frame reply s)) = serial_out s
  /\ last_lock_state (snd (verification_cycle frame reply s))
     = last_lock_state s.
Proof.
  unfold verification_cycle.
  destruct (verify_face_state frame s) as [msg Hs].
  destruct (verify_face frame s) as [[[d box] conf] s1].
  unfold decision. simpl in *. subst s1.
  intros Hlast. apply state_changed_false in Hlast.
  change (last_lock_state (set_status msg s)) with (last_lock_state s).
  rewrite Hlast. auto.
Qed.

Lemma verification_cycle_changed (frame : Frame) (reply : LinkReply)
    (s : State) :
  last_lock_state s <> Some (decision (fst (verify_face frame s))) ->
  let d := decision (fst (verify_face frame s)) in
  let sent :=
    send_serial_command (lock_command d) reply
      (set_is_unlocked d (snd (verify_face frame s))) in
  link_calls (snd (verification_cycle frame reply s))
  = link_calls s ++ [(lock_command d, fst sent)]
  /\ serial_out (snd (verification_cycle frame reply s)) = serial_out (snd sent)
  /\ last_lock_state (snd (verification_cycle frame reply s)) = Some d.
Proof.
  unfold verification_cycle.
  destruct (verify_face_state frame s) as [msg Hs].
  destruct (verify_face frame s) as [[[d box] conf] s1].
  unfold decision. simpl in *. subst s1.
  intros Hlast.
  change (last_lock_state (set_status msg s)) with (last_lock_state s).
  destruct (state_changed (last_lock_state s) d) eqn:Hch.
  - unfold send_serial_command; simpl.
    destruct (arduino s); [destruct reply|]; simpl; auto.
  - apply state_changed_false in Hch. contradiction.
Qed.

(** After a cycle the controller believes the decision of that cycle,
    whether a command was sent or not and whatever the link answered. *)
Lemma verification_cycle_last (frame : Frame) (reply : LinkReply) (s : State) :
  last_lock_state (snd (verification_cycle frame reply s))
  = Some (decision (fst (verify_face frame s))).
Proof.
  destruct (decide (last_lock_state s
                    = Some (decision (fst (verify_face frame s))))) as [H|H].
  - destruct (verification_cycle_same frame reply s H) as (_ & _ & ->). exact H.
  - apply (verification_cycle_changed frame reply s H).
Qed.

(** C1, as the code has it. When the decision of a verification cycle
    differs from [last_lock_state], the cycle calls
    [send_serial_command] once with the command of the decision and then
    sets [last_lock_state] to the decision, whatever the call returned:
    acknowledged, timed out, failed, or no port at all.  So a following
    cycle with the same decision calls the link no more and writes
    nothing: a command that was not acknowledged is not sent again. *)
Theorem cycle_advances_state_without_ack
    (frame : Frame) (reply : LinkReply) (s : State) :
  let d := decision (fst (verify_face frame s)) in
  let s' := snd (verification_cycle frame reply s) in
  last_lock_state s <> Some d ->
  (exists result, link_calls s' = link_calls s ++ [(lock_command d, result)])
  /\ last_lock_state s' = Some d
  /\ forall (frame2 : Frame) (reply2 : LinkReply),
       decision (fst (verify_face frame2 s')) = d ->
       link_calls (snd (verification_cycle frame2 reply2 s')) = link_calls s'
       /\ serial_out (snd (verification_cycle frame2 reply2 s'))
          = serial_out s'.
Proof.
  intros d s' Hdiff.
  destruct (verification_cycle_changed frame reply s Hdiff) as (Hc & _ & Hl).
  split; [eauto|]. split; [exact Hl|].
  intros frame2 reply2 Hd.
  destruct (verification_cycle_same frame2 reply2 s') as (H1 & H2 & _); auto.
  rewrite Hd. exact Hl.
Qed.

(** C4. In a verification cycle whose decision differs from
    [last_lock_state], [send_serial_command] is called exactly once, with
    [lock_off] for an accepting decision and [lock_on] for a rejecting
    one, and on an open port whose write does not fail exactly that one
    line goes out.  In a cycle whose decision equals [last_lock_state] the
    link is not called and nothing is written.  In particular the cycle
    that follows any cycle and reaches the same decision sends nothing. *)
Theorem cycle_sends_once_per_change
    (frame : Frame) (reply : LinkReply) (s : State) :
  let d := decision (fst (verify_face frame s)) in
  let s' := snd (verification_cycle frame reply s) in
  (last_lock_state s <> Some d ->
     (exists result,
        link_calls s' = link_calls s ++ [(lock_command d, result)])
     /\ (arduino s = true -> reply <> WriteError ->
         serial_out s' = serial_out s ++ [lock_command d +:+ newline]))
  /\ (last_lock_state s = Some d ->
      link_calls s' = link_calls s /\ serial_out s' = serial_out s)
  /\ (forall (frame2 : Frame) (reply2 : LinkReply),
        decision (fst (verify_face frame2 s')) = d ->
        link_calls (snd (verification_cycle frame2 reply2 s')) = link_calls s'
        /\ serial_out (snd (verification_cycle frame2 reply2 s'))
           = serial_out s').
Proof.
  intros d s'. split; [|split].
  - intros Hdiff.
    destruct (verification_cycle_changed frame reply s Hdiff) as (Hc & Hw & _).
    split; [eauto|]. intros Hport Hreply. fold s' in Hw. rewrite Hw.
    rewrite send_serial_command_wire; auto.
    + destruct (verify_face_state frame s) as [msg ->]. reflexivity.
    + destruct (verify_face_state frame s) as [msg ->]. exact Hport.
  - intros Hsame.
    destruct (verification_cycle_same frame reply s Hsame) as (H1 & H2 & _).
    auto.
  - intros frame2 reply2 Hd.
    destruct (verification_cycle_same frame2 reply2 s') as (H1 & H2 & _); auto.
    rewrite Hd. apply verification_cycle_last.
Qed.

(** *** Reset *)

Lemma reset_store_fields (reply : LinkReply) (s : State) :
  saved_names (reset_store reply s) = ∅
  /\ person_counter (reset_store reply s) = 1
  /\ name_map (reset_store reply s) = ∅
  /\ is_unlocked (reset_store reply s) = false
  /\ status_text (reset_store reply s) = ResetCompleted
  /\ registration_in_progress (reset_store reply s)
     = registration_in_progress s.
Proof.
  unfold reset_store, send_serial_command; simpl.
  destruct (arduino s); [destruct reply|]; simpl; auto 10.
Qed.

Lemma on_mouse_reset (x y : Z) (reply : LinkReply) (s : State) :
  is_button_clicked x y = Some Reset ->
  registration_in_progress s = false ->
  snd (on_mouse true x y reply s)
  = reset_store reply (set_button_clicked (Some Reset) s).
Proof.
  intros Hb Hr. unfold on_mouse. rewrite Hr, Hb. reflexivity.
Qed.

(** C8. A click on the reset button, outside a registration, leaves the
    store empty with [get_face_count] 0; a second such click right after
    it leaves the same empty store, again with count 0, and the same
    counter, name map and lock flag as the first. *)
Theorem reset_twice_same_as_once
    (x y : Z) (reply1 reply2 : LinkReply) (s : State) :
  is_button_clicked x y = Some Reset ->
  registration_in_progress s = false ->
  let once := snd (on_mouse true x y reply1 s) in
  let twice := snd (on_mouse true x y reply2 once) in
  saved_names once = ∅
  /\ saved_names twice = saved_names once
  /\ get_face_count once = 0%nat
  /\ get_face_count twice = 0%nat
  /\ person_counter twice = person_counter once
  /\ name_map twice = name_map once
  /\ is_unlocked twice = is_unlocked once.
Proof.
  intros Hb Hr once twice.
  assert (Honce : once = reset_store reply1 (set_button_clicked (Some Reset) s))
    by (apply on_mouse_reset; assumption).
  destruct (reset_store_fields reply1 (set_button_clicked (Some Reset) s))
    as (Hs1 & Hc1 & Hn1 & Hu1 & _ & Hp1).
  rewrite <- Honce in Hs1, Hc1, Hn1, Hu1, Hp1. simpl in Hp1.
  assert (Htwice :
            twice = reset_store reply2 (set_button_clicked (Some Reset) once))
    by (apply on_mouse_reset; congruence).
  destruct (reset_store_fields reply2 (set_button_clicked (Some Reset) once))
    as (Hs2 & Hc2 & Hn2 & Hu2 & _ & _).
  rewrite <- Htwice in Hs2, Hc2, Hn2, Hu2.
  repeat split; try congruence; apply get_face_count_empty; assumption.
Qed.

(** *** Enrollment: the capture loop *)

(** An iteration either leaves the session and the state as they are, or
    captures: the tick offers an embedding, the spacing test passes, and
    the sample goes to the end of the three lists and onto the disk. *)
Lemma register_body_cases (user_dir : string) (tk : Tick) (ses : Session)
    (s : State) :
  let out := register_body user_dir tk ses s in
  snd out = (ses, s)
  \/ exists face_img emb,
       tick_embedding tk = Some emb
       /\ (CAPTURE_SPACING < tk_check tk - last_capture ses)%Q
       /\ fst (snd out)
          = mkSession (faces ses ++ [face_img]) (embeddings ses ++ [emb])
                      (tk_stamp tk) (stamps ses ++ [tk_stamp tk])
       /\ snd (snd out)
          = set_status (Capturing (length (faces ses ++ [face_img])))
                       (imwrite user_dir face_img s)
       /\ fst out <> Raise.
Proof.
  unfold register_body, tick_embedding.
  destruct (tk_frame tk) as [frame|]; simpl; [|auto].
  destruct (detectMultiScale frame) as [[|face [|face' more]]|]; simpl; auto.
  unfold capture, capture_allowed.
  destruct (is_valid_face (crop frame face)); simpl; [|auto].
  destruct (Qltb CAPTURE_SPACING (fsub (tk_check tk) (last_capture ses)))
    eqn:Hsp; simpl; [|auto].
  destruct (extract_face_embedding (crop frame face)) as [emb|]; simpl; [|auto].
  right. exists (crop frame face), emb.
  apply Qltb_lt, (round64_gt _ _ CAPTURE_SPACING_double) in Hsp.
  repeat split; auto.
  destruct (esc_pressed tk); discriminate.
Qed.

(** Induction over the capture loop: a property of the session and the
    state that every iteration keeps holds when the loop exits. *)
Lemma register_loop_invariant (P : Session -> State -> Prop)
    (user_dir : string) (start_time : Q) (ticks : list Tick) :
  (forall tk ses s,
     In tk ticks -> P ses s ->
     P (fst (snd (register_body user_dir tk ses s)))
       (snd (snd (register_body user_dir tk ses s)))) ->
  forall ses s flow ses' s',
    P ses s ->
    register_loop user_dir start_time ticks ses s = Some (flow, (ses', s')) ->
    P ses' s'.
Proof.
  induction ticks as [|tk rest IH]; intros Hstep ses s flow ses' s' HP Hrun;
    simpl in Hrun; [discriminate|].
  destruct (loop_condition start_time tk ses).
  - pose proof (Hstep tk ses s (or_introl eq_refl) HP) as HP'.
    destruct (register_body user_dir tk ses s) as [[] [ses1 s1]]; simpl in *.
    + eapply IH; [|exact HP'|exact Hrun].
      intros tk' ses2 s2 Hin. apply Hstep. right. exact Hin.
    + congruence.
    + congruence.
  - congruence.
Qed.

Lemma imwrite_fields (user_dir : string) (img : Image) (s : State) :
  person_counter (imwrite user_dir img s) = person_counter s
  /\ name_map (imwrite user_dir img s) = name_map s
  /\ registration_in_progress (imwrite user_dir img s)
     = registration_in_progress s
  /\ link_calls (imwrite user_dir img s) = link_calls s
  /\ serial_out (imwrite user_dir img s) = serial_out s
  /\ arduino (imwrite user_dir img s) = arduino s.
Proof.
  unfold imwrite. destruct (saved_names s !! user_dir) as [[|d]|]; simpl; auto 10.
Qed.

(** The loop changes neither the counter, nor the name map, nor the
    flag, nor the serial link. *)
Lemma register_loop_globals (user_dir : string) (start_time : Q)
    (ticks : list Tick) (ses : Session) (s : State)
    (flow : Flow) (ses' : Session) (s' : State) :
  register_loop user_dir start_time ticks ses s = Some (flow, (ses', s')) ->
  person_counter s' = person_counter s
  /\ name_map s' = name_map s
  /\ registration_in_progress s' = registration_in_progress s
  /\ link_calls s' = link_calls s
  /\ serial_out s' = serial_out s
  /\ arduino s' = arduino s.
Proof.
  apply (register_loop_invariant
           (fun _ s1 =>
              person_counter s1 = person_counter s
              /\ name_map s1 = name_map s
              /\ registration_in_progress s1 = registration_in_progress s
              /\ link_calls s1 = link_calls s
              /\ serial_out s1 = serial_out s
              /\ arduino s1 = arduino s)); [|auto 10].
  intros tk ses1 s1 _ HP.
  destruct (register_body_cases user_dir tk ses1 s1)
    as [Hsame | (img & emb & _ & _ & _ & Hs & _)].
  - rewrite Hsame. exact HP.
  - rewrite Hs. simpl.
    destruct (imwrite_fields user_dir img s1) as (-> & -> & -> & -> & -> & ->).
    exact HP.
Qed.

(** The two lists of the session grow together. *)
Lemma register_loop_lengths (user_dir : string) (start_time : Q)
    (ticks : list Tick) (ses : Session) (s : State)
    (flow : Flow) (ses' : Session) (s' : State) :
  length (embeddings ses) = length (faces ses)
  /\ length (stamps ses) = length (faces ses) ->
  register_loop user_dir start_time ticks ses s = Some (flow, (ses', s')) ->
  length (embeddings ses') = length (faces ses')
  /\ length (stamps ses') = length (faces ses').
Proof.
  apply (register_loop_invariant
           (fun ses1 _ =>
              length (embeddings ses1) = length (faces ses1)
              /\ length (stamps ses1) = length (faces ses1))).
  intros tk ses1 s1 _ [HP1 HP2].
  destruct (register_body_cases user_dir tk ses1 s1)
    as [Hsame | (img & emb & _ & _ & Hses & _ & _)].
  - rewrite Hsame. auto.
  - rewrite Hses. simpl. rewrite !length_app. simpl. lia.
Qed.

(** While the directory of the session exists, the loop changes the
    store only there, and only by adding the crops of the session in the
    order of the captures. *)
Lemma register_loop_store (user_dir : string) (start_time : Q)
    (ticks : list Tick) (s : State) (d : PersonDir)
    (flow : Flow) (ses' : Session) (s' : State) :
  saved_names s !! user_dir = Some (Directory d) ->
  register_loop user_dir start_time ticks new_session s
  = Some (flow, (ses', s')) ->
  saved_names s'
  = <[user_dir := Directory (mkPersonDir (jpgs d ++ faces ses')
                                          (embeddings_pkl d))]>
      (saved_names s).
Proof.
  intros Hd.
  apply (register_loop_invariant
           (fun ses1 s1 =>
              saved_names s1
              = <[user_dir := Directory (mkPersonDir (jpgs d ++ faces ses1)
                                                      (embeddings_pkl d))]>
                  (saved_names s))).
  - intros tk ses1 s1 _ HP.
    destruct (register_body_cases user_dir tk ses1 s1)
      as [Hsame | (img & emb & _ & _ & Hses & Hs & _)].
    + rewrite Hsame. exact HP.
    + rewrite Hses, Hs. simpl. unfold imwrite.
      rewrite HP at 1. rewrite lookup_insert_eq. simpl.
      rewrite HP, insert_insert_eq, app_assoc. reflexivity.
  - simpl. rewrite app_nil_r. symmetry. apply insert_id.
    rewrite Hd. destruct d; reflexivity.
Qed.

(** The embeddings of the session are offered by the ticks, in the order
    of the ticks. *)
Lemma register_loop_capture_order (user_dir : string) (start_time : Q)
    (ticks : list Tick) (ses : Session) (s : State)
    (flow : Flow) (ses' : Session) (s' : State) :
  register_loop user_dir start_time ticks ses s = Some (flow, (ses', s')) ->
  exists more,
    embeddings ses' = embeddings ses ++ more
    /\ sublist more (omap tick_embedding ticks).
Proof.
  revert ses s. induction ticks as [|tk rest IH]; intros ses s Hrun;
    simpl in Hrun; [discriminate|].
  assert (Hend : ses' = ses ->
                 exists more, embeddings ses' = embeddings ses ++ more
                              /\ sublist more (omap tick_embedding (tk :: rest))).
  { intros ->. exists []. rewrite app_nil_r. split; [reflexivity|].
    apply sublist_nil_l. }
  destruct (loop_condition start_time tk ses); [|apply Hend; congruence].
  destruct (register_body_cases user_dir tk ses s)
    as [Hsame | (img & emb & Hemb & _ & Hses & _ & _)].
  - destruct (register_body user_dir tk ses s) as [[] [ses1 s1]];
      simpl in Hsame; inversion Hsame; subst;
      [|apply Hend; congruence|apply Hend; congruence].
    destruct (IH _ _ Hrun) as (more & Hm & Hsub).
    exists more. split; [exact Hm|]. simpl.
    destruct (tick_embedding tk); [apply sublist_cons|]; exact Hsub.
  - assert (Hone : sublist [emb] (omap tick_embedding (tk :: rest))).
    { simpl. rewrite Hemb. apply sublist_skip, sublist_nil_l. }
    destruct (register_body user_dir tk ses s) as [[] [ses1 s1]];
      simpl in Hses; subst ses1.
    + destruct (IH _ _ Hrun) as (more & Hm & Hsub). simpl in Hm.
      exists (emb :: more). split.
      * rewrite Hm, <- app_assoc. reflexivity.
      * simpl. rewrite Hemb. apply sublist_skip. exact Hsub.
    + inversion Hrun; subst. exists [emb]. auto.
    + inversion Hrun; subst. exists [emb]. auto.
Qed.

(** The loop exits as soon as the clock of a tick reaches the time cap,
    if not before. *)
Lemma register_loop_returns (user_dir : string) (start_time : Q)
    (ticks : list Tick) (ses : Session) (s : State) :
  Exists (time_is_up start_time) ticks ->
  is_Some (register_loop user_dir start_time ticks ses s).
Proof.
  intros Hex. revert ses s.
  induction Hex as [tk rest Hup | tk rest _ IH]; intros ses s; simpl.
  - unfold loop_condition. unfold time_is_up in Hup.
    destruct (Qltb (fsub (tk_now tk) start_time) REGISTRATION_DURATION)
      eqn:Hlt.
    + apply Qltb_lt, (round64_lt _ _ REGISTRATION_DURATION_double) in Hlt.
      exfalso. exact (Qlt_not_le _ _ Hlt Hup).
    + simpl. eauto.
  - destruct (loop_condition start_time tk ses); [|eauto].
    destruct (register_body user_dir tk ses s) as [[] [ses1 s1]]; eauto.
Qed.

(** *** Enrollment: entry, commit and rollback *)

Lemma send_serial_command_fields (command : string) (reply : LinkReply)
    (s : State) :
  let s' := snd (send_serial_command command reply s) in
  saved_names s' = saved_names s
  /\ person_counter s' = person_counter s
  /\ name_map s' = name_map s
  /\ registration_in_progress s' = registration_in_progress s
  /\ status_text s' = status_text s.
Proof.
  unfold send_serial_command.
  destruct (arduino s); [destruct reply|]; simpl; auto.
Qed.

(** Rewrites the fields of the state behind the call of
    [send_serial_command] that occurs in the goal. *)
Ltac link_fields :=
  match goal with
  | |- context [send_serial_command ?c ?r ?s0] =>
      let H1 := fresh "Hsaved" in
      let H2 := fresh "Hcounter" in
      let H3 := fresh "Hnames" in
      destruct (send_serial_command_fields c r s0) as (H1 & H2 & H3 & _);
      simpl in H1, H2, H3; rewrite ?H1, ?H2, ?H3
  end.

(** [makedirs] succeeds on a free name, which it turns into an empty
    directory, and on a directory, which it keeps. *)
Lemma makedirs_cases (user_dir : string) (s s0 : State) :
  makedirs user_dir s = Some s0 ->
  (saved_names s !! user_dir = None
   /\ s0 = set_saved_names
             (<[user_dir := Directory (mkPersonDir [] None)]> (saved_names s)) s)
  \/ (exists d, saved_names s !! user_dir = Some (Directory d) /\ s0 = s).
Proof.
  unfold makedirs. destruct (saved_names s !! user_dir) as [[|d]|];
    intros H; inversion H; eauto.
Qed.

Lemma makedirs_directory (user_dir : string) (s s0 : State) :
  makedirs user_dir s = Some s0 ->
  exists d, saved_names s0 !! user_dir = Some (Directory d).
Proof.
  intros H. destruct (makedirs_cases _ _ _ H) as [[_ ->] | (d & Hd & ->)].
  - simpl. rewrite lookup_insert_eq. eauto.
  - eauto.
Qed.

Lemma makedirs_globals (user_dir : string) (s s0 : State) :
  makedirs user_dir s = Some s0 ->
  person_counter s0 = person_counter s
  /\ name_map s0 = name_map s
  /\ registration_in_progress s0 = registration_in_progress s.
Proof.
  intros H. destruct (makedirs_cases _ _ _ H) as [[_ ->] | (d & _ & ->)]; auto.
Qed.

Lemma abort_fields (why : Status) (user_dir : string) (s : State) :
  registration_in_progress (abort why user_dir s) = false
  /\ person_counter (abort why user_dir s) = person_counter s
  /\ name_map (abort why user_dir s) = name_map s
  /\ saved_names (abort why user_dir s) = saved_names (rmtree user_dir s).
Proof.
  unfold abort, rmtree.
  destruct (saved_names s !! user_dir) as [[|d]|]; simpl; auto.
Qed.

(** After a rollback the name of the session's directory is free again,
    unless a regular file holds it. *)
Lemma rmtree_removes (user_dir : string) (s : State) (d : PersonDir) :
  saved_names s !! user_dir = Some (Directory d) ->
  saved_names (rmtree user_dir s) = delete user_dir (saved_names s).
Proof. intros H. unfold rmtree. rewrite H. reflexivity. Qed.

(** The end of [register_face] when the session is given up. *)
Lemma register_finish_gives_up (user_id user_dir : string) (disk_ok : bool)
    (reply : LinkReply) (ses : Session) (s : State) :
  fst (register_finish user_id user_dir disk_ok reply ses s) = None ->
  exists why,
    snd (register_finish user_id user_dir disk_ok reply ses s)
    = abort why user_dir s.
Proof.
  unfold register_finish.
  destruct (MIN_REGISTRATION_FACES <=? length (faces ses))%nat; [|eauto].
  destruct (dump_embeddings user_dir (embeddings ses) disk_ok s); [|eauto].
  simpl. discriminate.
Qed.

(** The end of [register_face] when the session commits. *)
Lemma register_finish_commits (user_id user_dir : string) (disk_ok : bool)
    (reply : LinkReply) (ses : Session) (s : State) (d : PersonDir) :
  saved_names s !! user_dir = Some (Directory d) ->
  let out := register_finish user_id user_dir disk_ok reply ses s in
  (is_Some (fst out)
   <-> (MIN_REGISTRATION_FACES <= length (faces ses))%nat /\ disk_ok = true)
  /\ (is_Some (fst out) ->
      fst out = Some user_id
      /\ saved_names (snd out)
         = <[user_dir := Directory (mkPersonDir (jpgs d)
                                      (Some (Pickled (embeddings ses))))]>
             (saved_names s)
      /\ name_map (snd out) = <[person_counter s := user_id]> (name_map s)
      /\ person_counter (snd out) = person_counter s + 1).
Proof.
  intros Hd. unfold register_finish, dump_embeddings. rewrite Hd.
  destruct (MIN_REGISTRATION_FACES <=? length (faces ses))%nat eqn:Hmin.
  - apply Nat.leb_le in Hmin. destruct disk_ok; simpl.
    + split; [split; eauto|]. intros _. link_fields. auto.
    + split; [split|]; [intros [? ?]; discriminate | intros [_ ?]; discriminate
                       | intros [? ?]; discriminate].
  - apply Nat.leb_gt in Hmin. simpl.
    split; [split|]; [intros [? ?]; discriminate | intros [? _]; lia
                     | intros [? ?]; discriminate].
Qed.

Lemma register_finish_flag (user_id user_dir : string) (disk_ok : bool)
    (reply : LinkReply) (ses : Session) (s : State) :
  registration_in_progress
    (snd (register_finish user_id user_dir disk_ok reply ses s)) = false.
Proof.
  unfold register_finish.
  destruct (MIN_REGISTRATION_FACES <=? length (faces ses))%nat;
    [|apply abort_fields].
  destruct (dump_embeddings user_dir (embeddings ses) disk_ok s);
    [reflexivity | apply abort_fields].
Qed.

Lemma register_finish_counter (user_id user_dir : string) (disk_ok : bool)
    (reply : LinkReply) (ses : Session) (s : State) :
  let out := register_finish user_id user_dir disk_ok reply ses s in
  person_counter (snd out)
  = match fst out with
    | Some _ => person_counter s + 1
    | None => person_counter s
    end.
Proof.
  unfold register_finish.
  destruct (MIN_REGISTRATION_FACES <=? length (faces ses))%nat;
    [|apply abort_fields].
  destruct (dump_embeddings user_dir (embeddings ses) disk_ok s) as [s1|] eqn:Hd;
    [|apply abort_fields].
  simpl. link_fields.
  unfold dump_embeddings in Hd. destruct disk_ok; [|discriminate].
  destruct (saved_names s !! user_dir) as [[|d]|]; inversion Hd. reflexivity.
Qed.

(** The return of [register_face], without the states on the way. *)
Lemma register_face_unfold
    (start_time : Q) (ticks : list Tick) (disk_ok : bool) (reply : LinkReply)
    (s : State) :
  register_face start_time ticks disk_ok reply s
  = let user_id := user_id_of (person_counter s) in
    let user_dir := user_dir_of (person_counter s) in
    let s := register_entry s in
    match makedirs user_dir s with
    | None => Some (None, abort FailedErrorOccurred user_dir s)
    | Some s =>
        match register_loop user_dir start_time ticks new_session s with
        | None => None
        | Some (Raise, (_, s)) =>
            Some (None, abort FailedErrorOccurred user_dir s)
        | Some (_, (ses, s)) =>
            Some (register_finish user_id user_dir disk_ok reply ses s)
        end
    end.
Proof.
  unfold register_face, register_face_run. cbv zeta.
  destruct (makedirs _ (register_entry s)); reflexivity.
Qed.

(** C3, as the code has it. A session whose capture loop ends without an
    exception (time cap, sample cap or ESC) commits, that is returns the
    new label, if and only if it holds at least [MIN_REGISTRATION_FACES]
    samples at the exit and [embeddings.pkl] is written without error.
    When it commits, the file holds exactly the embeddings of the session,
    which the ticks offered in that order, one per sample; the label is
    entered in [name_map] under the counter, and the counter moves on by
    one.  Nine samples are at least three, so a session that captured
    nine commits all nine. *)
Theorem register_face_commits_iff
    (start_time : Q) (ticks : list Tick) (disk_ok : bool) (reply : LinkReply)
    (s s0 : State) (flow : Flow) (ses : Session) (s1 : State) :
  let user_dir := user_dir_of (person_counter s) in
  let user_id := user_id_of (person_counter s) in
  makedirs user_dir (register_entry s) = Some s0 ->
  register_loop user_dir start_time ticks new_session s0
  = Some (flow, (ses, s1)) ->
  flow <> Raise ->
  exists result s',
    register_face start_time ticks disk_ok reply s = Some (result, s')
    /\ (is_Some result
        <-> (MIN_REGISTRATION_FACES <= length (faces ses))%nat
            /\ disk_ok = true)
    /\ (is_Some result ->
        result = Some user_id
        /\ (exists d,
              saved_names s' !! user_dir = Some (Directory d)
              /\ embeddings_pkl d = Some (Pickled (embeddings ses)))
        /\ length (embeddings ses) = length (faces ses)
        /\ sublist (embeddings ses) (omap tick_embedding ticks)
        /\ name_map s' !! person_counter s = Some user_id
        /\ person_counter s' = person_counter s + 1).
Proof.
  intros user_dir user_id Hmk Hloop Hflow.
  destruct (makedirs_directory _ _ _ Hmk) as [d0 Hd0].
  destruct (makedirs_globals _ _ _ Hmk) as (Hc0 & Hn0 & _).
  destruct (register_loop_globals _ _ _ _ _ _ _ _ Hloop) as (Hc1 & Hn1 & _).
  pose proof (register_loop_store _ _ _ _ _ _ _ _ Hd0 Hloop) as Hstore.
  assert (Hd1 : saved_names s1 !! user_dir
                = Some (Directory (mkPersonDir (jpgs d0 ++ faces ses)
                                               (embeddings_pkl d0))))
    by (rewrite Hstore; apply lookup_insert_eq).
  destruct (register_finish_commits user_id user_dir disk_ok reply ses s1 _ Hd1)
    as [Hiff Hcommit].
  exists (fst (register_finish user_id user_dir disk_ok reply ses s1)),
         (snd (register_finish user_id user_dir disk_ok reply ses s1)).
  split; [|split; [exact Hiff|]].
  - rewrite register_face_unfold. cbv zeta. fold user_dir user_id.
    rewrite Hmk, Hloop.
    destruct flow; [| |contradiction];
      destruct (register_finish user_id user_dir disk_ok reply ses s1);
      reflexivity.
  - intros Hsome. destruct (Hcommit Hsome) as (Hr & Hs & Hn & Hc).
    split; [exact Hr|]. split; [|split; [|split; [|split]]].
    + eexists. rewrite Hs, lookup_insert_eq. split; reflexivity.
    + eapply register_loop_lengths; [|exact Hloop]. split; reflexivity.
    + destruct (register_loop_capture_order _ _ _ _ _ _ _ _ Hloop)
        as (more & Hm & Hsub).
      simpl in Hm. subst more. exact Hsub.
    + rewrite Hn. simpl in Hc0. rewrite Hc1, Hc0. apply lookup_insert_eq.
    + rewrite Hc. simpl in Hc0. lia.
Qed.

(** *** Enrollment: spacing of the captures *)

Lemma spaced_snoc (l : list Q) (x : Q) :
  spaced l -> Forall (fun t => (CAPTURE_SPACING < x - t)%Q) l ->
  spaced (l ++ [x]).
Proof.
  induction l as [|t l IH]; simpl; intros Hsp Hall.
  - split; [constructor | exact I].
  - destruct Hsp as [Hhead Htail]. inversion Hall; subst. split.
    + apply Forall_app. split; [exact Hhead | repeat constructor; assumption].
    + apply IH; assumption.
Qed.

(** C6, as the code has it.  Provided the clock does not run backwards
    between the spacing test of an iteration and its assignment to
    [last_capture]: in the session a capture loop ends with, every
    recorded capture time is more than the spacing interval (0.5 s) after
    every earlier one, there being one recorded time per accepted sample.
    And, with or without the proviso, a candidate that arrives no more
    than the interval after [last_capture] is dropped: the iteration
    leaves the session and the state as they were. *)
Theorem accepted_captures_are_spaced
    (user_dir : string) (start_time : Q) (ticks : list Tick) (s : State)
    (flow : Flow) (ses : Session) (s' : State) :
  register_loop user_dir start_time ticks new_session s
  = Some (flow, (ses, s')) ->
  Forall clock_monotone ticks ->
  spaced (stamps ses)
  /\ length (stamps ses) = length (faces ses)
  /\ forall (tk : Tick) (ses1 : Session) (s1 : State),
       (tk_check tk - last_capture ses1 <= CAPTURE_SPACING)%Q ->
       snd (register_body user_dir tk ses1 s1) = (ses1, s1).
Proof.
  intros Hloop Hclock. split; [|split].
  - cut (spaced (stamps ses)
         /\ Forall (fun t => (t <= last_capture ses)%Q) (stamps ses));
      [tauto|].
    revert Hloop.
    apply (register_loop_invariant
             (fun ses1 _ =>
                spaced (stamps ses1)
                /\ Forall (fun t => (t <= last_capture ses1)%Q) (stamps ses1)));
      [|simpl; auto].
    intros tk ses1 s1 Hin [Hsp Hlast].
    destruct (register_body_cases user_dir tk ses1 s1)
      as [Hsame | (img & emb & _ & Hgap & Hses & _ & _)].
    + rewrite Hsame. auto.
    + rewrite Hses. simpl.
      assert (Hmono : (tk_check tk <= tk_stamp tk)%Q).
      { rewrite Forall_forall in Hclock. apply Hclock.
        apply list_elem_of_In. exact Hin. }
      unfold CAPTURE_SPACING in Hgap.
      split.
      * apply spaced_snoc; [exact Hsp|].
        eapply Forall_impl; [exact Hlast|]. simpl. intros t Ht.
        unfold CAPTURE_SPACING. lra.
      * apply Forall_app. split.
        -- eapply Forall_impl; [exact Hlast|]. simpl. intros t Ht. lra.
        -- repeat constructor. apply Qle_refl.
  - eapply register_loop_lengths; [|exact Hloop]. split; reflexivity.
  - intros tk ses1 s1 Hgap.
    destruct (register_body_cases user_dir tk ses1 s1)
      as [Hsame | (img & emb & _ & Hgap' & _)]; [exact Hsame|].
    exfalso. exact (Qlt_not_le _ _ Hgap' Hgap).
Qed.

(** *** Enrollment: the flag and the return *)

(** An iteration of the loop leaves the flag as it is. *)
Lemma register_body_flag (user_dir : string) (tk : Tick) (ses : Session)
    (s : State) :
  registration_in_progress (snd (snd (register_body user_dir tk ses s)))
  = registration_in_progress s.
Proof.
  destruct (register_body_cases user_dir tk ses s)
    as [Hsame | (img & emb & _ & _ & _ & Hs & _)].
  - rewrite Hsame. reflexivity.
  - rewrite Hs. simpl. apply imwrite_fields.
Qed.

Lemma register_loop_states_flag (user_dir : string) (start_time : Q)
    (ticks : list Tick) (ses : Session) (s : State) :
  Forall (fun s1 => registration_in_progress s1 = registration_in_progress s)
         (register_loop_states user_dir start_time ticks ses s).
Proof.
  revert ses s. induction ticks as [|tk rest IH]; intros ses s; simpl;
    [constructor|].
  destruct (loop_condition start_time tk ses); [|constructor].
  pose proof (register_body_flag user_dir tk ses s) as Hf.
  destruct (register_body user_dir tk ses s) as [[] [ses1 s1]]; simpl in Hf;
    repeat constructor; try exact Hf.
  eapply Forall_impl; [apply IH|]. simpl. intros s2 H2. congruence.
Qed.

(** The last state of the loop is the one the loop exits with. *)
Lemma register_loop_states_last (user_dir : string) (start_time : Q)
    (ticks : list Tick) (ses : Session) (s : State)
    (flow : Flow) (ses' : Session) (s' : State) :
  register_loop user_dir start_time ticks ses s = Some (flow, (ses', s')) ->
  last (s :: register_loop_states user_dir start_time ticks ses s) = Some s'.
Proof.
  revert ses s. induction ticks as [|tk rest IH]; intros ses s Hrun;
    simpl in Hrun; [discriminate|]. simpl.
  destruct (loop_condition start_time tk ses);
    [|inversion Hrun; reflexivity].
  destruct (register_body user_dir tk ses s) as [[] [ses1 s1]].
  - rewrite last_cons_cons. apply IH. exact Hrun.
  - inversion Hrun; reflexivity.
  - inversion Hrun; reflexivity.
Qed.

(** C10. The first state of a call of [register_face] is the state of
    the caller with [registration_in_progress] set to [True]; the flag is
    up in every state the call goes through, to the exit of the capture
    loop; whenever the call returns, the state it returns in has the flag
    down and is the one the exception handler or the code after the loop
    makes of the last of these states: commit, too few samples, save
    error, or exception.  The call does return once the clock of some
    tick reaches the time cap. *)
Theorem registration_flag_bracket
    (start_time : Q) (ticks : list Tick) (disk_ok : bool) (reply : LinkReply)
    (s : State) :
  head (register_face_states start_time ticks disk_ok reply s)
  = Some (set_registration_in_progress true s)
  /\ Forall (fun s1 => registration_in_progress s1 = true)
            (register_face_states start_time ticks disk_ok reply s)
  /\ (forall result s',
        register_face start_time ticks disk_ok reply s = Some (result, s') ->
        registration_in_progress s' = false
        /\ exists reached,
             last (register_face_states start_time ticks disk_ok reply s)
             = Some reached
             /\ registration_in_progress reached = true
             /\ ((result, s')
                 = (None, abort FailedErrorOccurred
                            (user_dir_of (person_counter s)) reached)
                 \/ exists ses,
                      (result, s')
                      = register_finish (user_id_of (person_counter s))
                          (user_dir_of (person_counter s)) disk_ok reply
                          ses reached))
  /\ (Exists (time_is_up start_time) ticks ->
      is_Some (register_face start_time ticks disk_ok reply s)).
Proof.
  assert (Hup : Forall (fun s1 => registration_in_progress s1 = true)
                       (register_face_states start_time ticks disk_ok reply s)).
  { unfold register_face_states, register_face_run. cbv zeta.
    destruct (makedirs _ (register_entry s)) as [s0|] eqn:Hmk;
      [|repeat constructor].
    destruct (makedirs_globals _ _ _ Hmk) as (_ & _ & Hf0). simpl in Hf0.
    simpl. constructor; [reflexivity|]. constructor; [exact Hf0|].
    eapply Forall_impl; [apply register_loop_states_flag|].
    simpl. intros s1 H1. congruence. }
  split; [|split; [exact Hup|split]].
  - unfold register_face_states, register_face_run. cbv zeta.
    destruct (makedirs _ (register_entry s)); reflexivity.
  - intros result s' Hcall.
    assert (Hreached :
              exists reached,
                last (register_face_states start_time ticks disk_ok reply s)
                = Some reached
                /\ ((result, s')
                    = (None, abort FailedErrorOccurred
                               (user_dir_of (person_counter s)) reached)
                    \/ exists ses,
                         (result, s')
                         = register_finish (user_id_of (person_counter s))
                             (user_dir_of (person_counter s)) disk_ok reply
                             ses reached)).
    { revert Hcall.
      unfold register_face, register_face_states, register_face_run.
      cbv zeta.
      destruct (makedirs _ (register_entry s)) as [s0|]; cbn [fst snd].
      - destruct (register_loop _ start_time ticks new_session s0)
          as [[flow [ses s1]]|] eqn:Hloop; [|discriminate].
        pose proof (register_loop_states_last _ _ _ _ _ _ _ _ Hloop) as Hlast.
        intros Hcall. exists s1. rewrite last_cons_cons. split; [exact Hlast|].
        destruct flow; inversion Hcall; subst; eauto.
      - intros Hcall. inversion Hcall; subst. eauto. }
    destruct Hreached as (reached & Hlast & Hmade).
    split.
    + destruct Hmade as [Hab | [ses Hfin]].
      * inversion Hab; subst. apply abort_fields.
      * pose proof (register_finish_flag (user_id_of (person_counter s))
                      (user_dir_of (person_counter s)) disk_ok reply ses
                      reached) as Hf.
        rewrite <- Hfin in Hf. exact Hf.
    + exists reached. split; [exact Hlast|]. split; [|exact Hmade].
      rewrite Forall_forall in Hup. apply Hup.
      apply last_Some_elem_of. exact Hlast.
  - intros Htime. rewrite register_face_unfold. cbv zeta.
    destruct (makedirs _ (register_entry s)) as [s0|]; [|eauto].
    destruct (register_loop_returns (user_dir_of (person_counter s))
                start_time ticks new_session s0 Htime) as [[[] [ses s1]] ->];
      eauto.
Qed.

(** *** Enrollment: rollback *)

(** A session that starts on a free directory name and gives up leaves
    the store, the counter and the name map as it found them. *)
Lemma failed_session_rolls_back
    (start_time : Q) (ticks : list Tick) (disk_ok : bool) (reply : LinkReply)
    (s s' : State) :
  saved_names s !! user_dir_of (person_counter s) = None ->
  register_face start_time ticks disk_ok reply s = Some (None, s') ->
  saved_names s' = saved_names s
  /\ person_counter s' = person_counter s
  /\ name_map s' = name_map s
  /\ registration_in_progress s' = false.
Proof.
  intros Hfree. rewrite register_face_unfold. cbv zeta.
  set (user_dir := user_dir_of (person_counter s)) in *.
  destruct (makedirs user_dir (register_entry s)) as [s0|] eqn:Hmk.
  2:{ unfold makedirs in Hmk. simpl in Hmk. rewrite Hfree in Hmk.
      discriminate. }
  destruct (makedirs_cases _ _ _ Hmk) as [[_ Hs0] | (d & Hd & _)].
  2:{ simpl in Hd. rewrite Hfree in Hd. discriminate. }
  assert (Hd0 : saved_names s0 !! user_dir
                = Some (Directory (mkPersonDir [] None)))
    by (rewrite Hs0; simpl; apply lookup_insert_eq).
  destruct (register_loop user_dir start_time ticks new_session s0)
    as [[flow [ses s1]]|] eqn:Hloop; [|discriminate].
  destruct (register_loop_globals _ _ _ _ _ _ _ _ Hloop) as (Hc1 & Hn1 & _).
  pose proof (register_loop_store _ _ _ _ _ _ _ _ Hd0 Hloop) as Hstore.
  assert (Hrolled : forall why,
            saved_names (abort why user_dir s1) = saved_names s
            /\ person_counter (abort why user_dir s1) = person_counter s
            /\ name_map (abort why user_dir s1) = name_map s
            /\ registration_in_progress (abort why user_dir s1) = false).
  { intros why.
    destruct (abort_fields why user_dir s1) as (Hf & Hc & Hn & Hsv).
    rewrite Hf, Hc, Hn, Hsv, Hc1, Hn1, Hs0. simpl.
    repeat split; try reflexivity.
    erewrite rmtree_removes by (rewrite Hstore; apply lookup_insert_eq).
    rewrite Hstore, Hs0. simpl.
    rewrite delete_insert_eq. apply delete_insert_id. exact Hfree. }
  assert (Hfin : forall out,
            register_finish (user_id_of (person_counter s)) user_dir disk_ok
              reply ses s1 = out ->
            fst out = None ->
            saved_names (snd out) = saved_names s
            /\ person_counter (snd out) = person_counter s
            /\ name_map (snd out) = name_map s
            /\ registration_in_progress (snd out) = false).
  { intros out <- Hnone.
    destruct (register_finish_gives_up _ _ _ _ _ _ Hnone) as [why ->].
    apply Hrolled. }
  destruct flow; intros H; inversion H as [Hout]; subst.
  - eapply (Hfin (None, s')); [|reflexivity]. symmetry.
    destruct (register_finish _ _ _ _ _ _); congruence.
  - eapply (Hfin (None, s')); [|reflexivity]. symmetry.
    destruct (register_finish _ _ _ _ _ _); congruence.
  - apply Hrolled.
Qed.

(** *** Handles of the identities *)

Lemma register_face_counter
    (start_time : Q) (ticks : list Tick) (disk_ok : bool) (reply : LinkReply)
    (s : State) (result : option string) (s' : State) :
  register_face start_time ticks disk_ok reply s = Some (result, s') ->
  person_counter s'
  = match result with
    | Some _ => person_counter s + 1
    | None => person_counter s
    end.
Proof.
  rewrite register_face_unfold. cbv zeta.
  destruct (makedirs _ (register_entry s)) as [s0|] eqn:Hmk.
  - destruct (makedirs_globals _ _ _ Hmk) as (Hc0 & _). simpl in Hc0.
    destruct (register_loop _ start_time ticks new_session s0)
      as [[flow [ses s1]]|] eqn:Hloop; [|discriminate].
    destruct (register_loop_globals _ _ _ _ _ _ _ _ Hloop) as (Hc1 & _).
    pose proof (register_finish_counter (user_id_of (person_counter s))
                  (user_dir_of (person_counter s)) disk_ok reply ses s1) as Hfin.
    destruct flow; intros H; inversion H as [H1]; subst;
      try (simpl in Hfin; rewrite H1 in Hfin; simpl in Hfin; rewrite Hfin;
           destruct result; lia).
    destruct (abort_fields FailedErrorOccurred
                (user_dir_of (person_counter s)) s1) as (_ & -> & _). lia.
  - intros H; inversion H; subst.
    destruct (abort_fields FailedErrorOccurred
                (user_dir_of (person_counter s)) (register_entry s))
      as (_ & -> & _).
    reflexivity.
Qed.

Lemma on_mouse_counter (x y : Z) (reply : LinkReply) (s : State) :
  is_reset_click (Click x y reply) = false ->
  person_counter (snd (on_mouse true x y reply s)) = person_counter s.
Proof.
  unfold is_reset_click, on_mouse.
  destruct (registration_in_progress s); simpl; [reflexivity|].
  destruct (is_button_clicked x y) as [[]|]; simpl; try discriminate;
    try reflexivity.
  intros _. link_fields. reflexivity.
Qed.

Lemma run_without_reset (actions : list Action) :
  Forall (fun a => is_reset_click a = false) actions ->
  forall (s : State) (handles : list Z) (s' : State),
    run actions s = Some (handles, s') ->
    person_counter s <= person_counter s'
    /\ StronglySorted Z.lt handles
    /\ Forall (fun h => person_counter s <= h < person_counter s') handles
    /\ (forall h, head handles = Some h -> h = person_counter s).
Proof.
  induction 1 as [|a rest Ha _ IH]; intros s handles s' Hrun; simpl in Hrun.
  - inversion Hrun; subst. repeat split; try constructor; try lia.
    discriminate.
  - destruct a as [x y reply | start_time ticks disk_ok reply].
    + destruct (IH _ _ _ Hrun) as (Hle & Hsorted & Hbound & Hhead).
      rewrite (on_mouse_counter x y reply s Ha) in *. auto.
    + destruct (register_face start_time ticks disk_ok reply s)
        as [[result s1]|] eqn:Hreg; [|discriminate].
      destruct (run rest s1) as [[hs s2]|] eqn:Hrest; [|discriminate].
      inversion Hrun; subst.
      destruct (IH _ _ _ Hrest) as (Hle & Hsorted & Hbound & Hhead).
      pose proof (register_face_counter _ _ _ _ _ _ _ Hreg) as Hc.
      destruct result as [user_id|]; simpl.
      * rewrite Hc in *. repeat split; try lia.
        -- constructor; [exact Hsorted|].
           eapply Forall_impl; [exact Hbound|]. simpl. intros h Hh. lia.
        -- constructor; [lia|].
           eapply Forall_impl; [exact Hbound|]. simpl. intros h Hh. lia.
        -- intros h Hh. congruence.
      * rewrite Hc in *. auto.
Qed.

(** C2, as the code has it. Handles are fresh only between resets.
    Through any history of clicks and sessions without a reset click, the
    handles issued are strictly increasing, all of them between the
    counter at the start and the counter at the end, and the first one
    issued is the counter at the start.  A reset click outside a
    registration puts [person_counter] back to 1; so the first identity
    committed after a reset gets the handle 1 again, the handle of the
    first identity of the process. *)
Theorem handles_fresh_only_between_resets :
  (forall (actions : list Action) (s : State) (handles : list Z) (s' : State),
     Forall (fun a => is_reset_click a = false) actions ->
     run actions s = Some (handles, s') ->
     StronglySorted Z.lt handles
     /\ Forall (fun h => person_counter s <= h < person_counter s') handles
     /\ (forall h, head handles = Some h -> h = person_counter s))
  /\ (forall (x y : Z) (reply : LinkReply) (s : State),
        is_button_clicked x y = Some Reset ->
        registration_in_progress s = false ->
        person_counter (snd (on_mouse true x y reply s)) = 1).
Proof.
  split.
  - intros actions s handles s' Hno Hrun.
    destruct (run_without_reset actions Hno s handles s' Hrun)
      as (_ & H1 & H2 & H3).
    auto.
  - intros x y reply s Hb Hr. rewrite on_mouse_reset by assumption.
    apply reset_store_fields.
Qed.

End Properties.

(** ** The properties on concrete runs *)

Section Examples.
Import Fixture.
#[local] Existing Instance toy_vision.

Lemma ambiguous_scene_example :
  detectMultiScale two_faces = Some [box0; box1]
  /\ length [box0; box1] <> 1%nat
  /\ fst (verify_face two_faces restarted) = (false, None, None).
Proof.
  assert (H1 : detectMultiScale two_faces = Some [box0; box1]) by reflexivity.
  assert (H2 : length [box0; box1] <> 1%nat) by (simpl; lia).
  exact (conj H1 (conj H2
           (verify_face_rejects_ambiguous_scene two_faces restarted _ H1 H2))).
Defined.

Lemma empty_store_example :
  get_face_count fresh = 0%nat
  /\ detectMultiScale (one_face emb_a) = Some [box0]
  /\ is_valid_face (crop (one_face emb_a) box0) = true
  /\ extract_face_embedding (crop (one_face emb_a) box0) = Some emb_a
  /\ fst (verify_face (one_face emb_a) fresh) = (false, Some box0, Some 0%Q).
Proof.
  assert (H1 : get_face_count fresh = 0%nat) by reflexivity.
  assert (H2 : detectMultiScale (one_face emb_a) = Some [box0]) by reflexivity.
  assert (H3 : is_valid_face (crop (one_face emb_a) box0) = true)
    by reflexivity.
  assert (H4 : extract_face_embedding (crop (one_face emb_a) box0)
               = Some emb_a) by reflexivity.
  exact (conj H1 (conj H2 (conj H3 (conj H4
           (verify_face_empty_store (one_face emb_a) fresh box0 emb_a
              H1 H2 H3 H4))))).
Defined.

Lemma reset_twice_example :
  is_button_clicked 1000 200 = Some Reset
  /\ registration_in_progress restarted = false
  /\ get_face_count restarted = 1%nat
  /\ saved_names (snd (on_mouse true 1000 200 Timeout restarted)) = ∅
  /\ saved_names
       (snd (on_mouse true 1000 200 (Ack "OK")
               (snd (on_mouse true 1000 200 Timeout restarted))))
     = saved_names (snd (on_mouse true 1000 200 Timeout restarted)).
Proof.
  assert (H1 : is_button_clicked 1000 200 = Some Reset) by reflexivity.
  assert (H2 : registration_in_progress restarted = false) by reflexivity.
  assert (H3 : get_face_count restarted = 1%nat) by (vm_compute; reflexivity).
  pose proof (reset_twice_same_as_once 1000 200 Timeout (Ack "OK") restarted
                H1 H2) as (Ha & Hb & _).
  exact (conj H1 (conj H2 (conj H3 (conj Ha Hb)))).
Defined.

(** C1 does not hold as the specification words it. The controller
    believes [locked];
    the next cycle accepts a face, the command [lock_off] times out
    ([send_serial_command] returns [False]), and [last_lock_state] has
    moved to the new decision all the same; the cycle after it, with the
    same decision, sends nothing. *)
Lemma unacknowledged_command_advances_state :
  last_lock_state locked = Some false
  /\ decision (fst (verify_face (one_face emb_a) locked)) = true
  /\ link_calls (snd (verification_cycle (one_face emb_a) Timeout locked))
     = link_calls locked ++ [("lock_off"%string, false)]
  /\ last_lock_state (snd (verification_cycle (one_face emb_a) Timeout locked))
     = Some true
  /\ link_calls
       (snd (verification_cycle (one_face emb_a) (Ack "OK")
               (snd (verification_cycle (one_face emb_a) Timeout locked))))
     = link_calls locked ++ [("lock_off"%string, false)].
Proof. vm_compute. repeat split; reflexivity. Qed.

Lemma unacknowledged_command_example :
  last_lock_state locked
  <> Some (decision (fst (verify_face (one_face emb_a) locked)))
  /\ last_lock_state (snd (verification_cycle (one_face emb_a) Timeout locked))
     = Some (decision (fst (verify_face (one_face emb_a) locked))).
Proof.
  assert (H1 : last_lock_state locked
               <> Some (decision (fst (verify_face (one_face emb_a) locked))))
    by (vm_compute; discriminate).
  pose proof (cycle_advances_state_without_ack (one_face emb_a) Timeout locked
                H1) as (_ & H2 & _).
  exact (conj H1 H2).
Defined.

Lemma one_command_per_change_example :
  last_lock_state locked
  <> Some (decision (fst (verify_face (one_face emb_a) locked)))
  /\ arduino locked = true
  /\ serial_out (snd (verification_cycle (one_face emb_a) (Ack "OK") locked))
     = serial_out locked ++ ["lock_off" +:+ newline].
Proof.
  assert (H1 : last_lock_state locked
               <> Some (decision (fst (verify_face (one_face emb_a) locked))))
    by (vm_compute; discriminate).
  assert (H2 : arduino locked = true) by reflexivity.
  assert (H3 : Ack "OK" <> WriteError) by discriminate.
  pose proof (cycle_sends_once_per_change (one_face emb_a) (Ack "OK") locked)
    as (Hchange & _).
  destruct (Hchange H1) as (_ & Hwire).
  exact (conj H1 (conj H2 (Hwire H2 H3))).
Defined.

(** C3 does not hold as the specification words it. The session exits
    with three samples,
    the minimum, but the disk refuses [embeddings.pkl]: the call returns
    [None], the directory of the session is gone, and the counter has not
    moved. *)
Lemma three_samples_but_no_commit :
  (exists s0 ses s1,
     makedirs "person_1" (register_entry fresh) = Some s0
     /\ register_loop "person_1" 0 three_ticks new_session s0
        = Some (Next, (ses, s1))
     /\ length (faces ses) = 3%nat)
  /\ (MIN_REGISTRATION_FACES <= 3)%nat
  /\ fst <$> register_face 0 three_ticks false (Ack "OK") fresh = Some None
  /\ (fun r => saved_names (snd r) !! "person_1"%string)
       <$> register_face 0 three_ticks false (Ack "OK") fresh = Some None
  /\ person_counter ∘ snd
       <$> register_face 0 three_ticks false (Ack "OK") fresh = Some 1.
Proof.
  split.
  - eexists _, _, _. split; [vm_compute; reflexivity|].
    split; vm_compute; reflexivity.
  - vm_compute. repeat split; first [reflexivity | lia].
Qed.

Lemma nine_samples_commit :
  exists s0 ses s1 result s',
    makedirs (user_dir_of (person_counter fresh)) (register_entry fresh)
    = Some s0
    /\ register_loop (user_dir_of (person_counter fresh)) 0 nine_ticks
         new_session s0 = Some (Next, (ses, s1))
    /\ embeddings ses
       = [[1; 1]; [2; 1]; [3; 1]; [4; 1]; [5; 1]; [6; 1]; [7; 1]; [8; 1];
          [9; 1]]%Q
    /\ register_face 0 nine_ticks true (Ack "OK") fresh = Some (result, s')
    /\ result = Some (user_id_of (person_counter fresh))
    /\ exists d,
         saved_names s' !! user_dir_of (person_counter fresh)
         = Some (Directory d)
         /\ embeddings_pkl d = Some (Pickled (embeddings ses)).
Proof.
  assert (Hmk : makedirs (user_dir_of (person_counter fresh))
                  (register_entry fresh) = Some enrolling)
    by (vm_compute; reflexivity).
  eassert (Hloop : register_loop (user_dir_of (person_counter fresh)) 0
                     nine_ticks new_session enrolling = Some (Next, (_, _)))
    by (vm_compute; reflexivity).
  assert (Hflow : Next <> Raise) by discriminate.
  destruct (register_face_commits_iff 0 nine_ticks true (Ack "OK") fresh
              _ _ _ _ Hmk Hloop Hflow)
    as (result & s' & Hcall & Hiff & Hcommit).
  assert (Hsome : is_Some result).
  { apply Hiff. split; [vm_compute; lia | reflexivity]. }
  destruct (Hcommit Hsome) as (Hr & Hd & _).
  eexists _, _, _, result, s'.
  split; [exact Hmk|]. split; [exact Hloop|]. split; [reflexivity|].
  split; [exact Hcall|]. split; [exact Hr | exact Hd].
Defined.

(** C6 does not hold as the specification words it.  The first face is
    captured at 1 s.  The second passes the spacing test at 2 s, the
    system clock is set back before the assignment to [last_capture],
    and the capture is recorded at 9/8 s.  The third passes the test at
    7/4 s.  All three are accepted: their recorded times are 1, 9/8 and
    7/4 s, the clock readings of their spacing tests 1, 2 and 7/4 s, and
    by either two of them are less than 0.5 s apart. *)
Lemma clock_set_back_breaks_spacing :
  exists ses s',
    register_loop "person_1" 0 set_back_ticks new_session enrolling
    = Some (Next, (ses, s'))
    /\ embeddings ses = [[1; 1]; [2; 1]; [3; 1]]%Q
    /\ tk_check <$> take 3 set_back_ticks = [1; 2; 7 # 4]%Q
    /\ stamps ses = [1; 9 # 8; 7 # 4]%Q
    /\ ~ spaced (stamps ses).
Proof.
  eassert (Hloop : register_loop "person_1" 0 set_back_ticks new_session
                     enrolling = Some (Next, (_, _)))
    by (vm_compute; reflexivity).
  eexists _, _. split; [exact Hloop|].
  split; [reflexivity|]. split; [reflexivity|]. split; [reflexivity|].
  simpl. intros [Hgap _]. inversion Hgap as [|? ? H1 _]; subst.
  vm_compute in H1. discriminate.
Qed.

Lemma rushed_capture_dropped :
  exists ses s',
    register_loop "person_1" 0 rushed_ticks new_session enrolling
    = Some (Next, (ses, s'))
    /\ Forall clock_monotone rushed_ticks
    /\ stamps ses = [5 # 8; 5 # 4]%Q
    /\ embeddings ses = [[1; 1]; [3; 1]]%Q
    /\ spaced (stamps ses).
Proof.
  eassert (Hloop : register_loop "person_1" 0 rushed_ticks new_session
                     enrolling = Some (Next, (_, _)))
    by (vm_compute; reflexivity).
  assert (Hclock : Forall clock_monotone rushed_ticks)
    by (repeat constructor; unfold clock_monotone; simpl; apply Qle_refl).
  destruct (accepted_captures_are_spaced _ _ _ _ _ _ _ Hloop Hclock)
    as (Hspaced & _).
  eexists _, _. split; [exact Hloop|]. split; [exact Hclock|].
  split; [reflexivity|]. split; [reflexivity | exact Hspaced].
Defined.

(** Faces at the doubles [0.6], [1.1] and [1.7] are all captured: the
    difference [1.1 - 0.6] is the double after [0.5]. *)
Lemma brisk_captures_accepted :
  fsub d1_1 d0_6 = (4503599627370497 # 9007199254740992)%Q
  /\ (stamps ∘ fst ∘ snd
      <$> register_loop "person_1" 0 brisk_ticks new_session enrolling)
     = Some [d0_6; d1_1; d1_7].
Proof. split; vm_compute; reflexivity. Qed.

(** [0.8 - 0.3] is [0.5] on doubles, though the rationals differ by
    more: a face at [0.8] after a capture recorded at [0.3] is dropped. *)
Lemma tie_rounds_to_spacing :
  (CAPTURE_SPACING < d0_8 - d0_3)%Q
  /\ fsub d0_8 d0_3 = CAPTURE_SPACING
  /\ capture_allowed (good_image emb_a) (tick_at d0_8 (one_face emb_a))
       (mkSession [] [] d0_3 [d0_3]) = false.
Proof. split; [|split]; vm_compute; reflexivity. Qed.

(** The products with 100 of the doubles [0.41] and [0.4]: 41 and 40
    on doubles, the one from below and the other from above. *)
Lemma product_on_doubles :
  (d0_41 * 100 < 41)%Q
  /\ fmul d0_41 100 = 41%Q
  /\ (40 < CONFIDENCE_THRESHOLD * 100)%Q
  /\ fmul CONFIDENCE_THRESHOLD 100 = 40%Q.
Proof. repeat split; vm_compute; reflexivity. Qed.

Lemma cancelled_session_lowers_flag :
  Exists (time_is_up 0) three_ticks
  /\ is_Some (register_face 0 three_ticks true Timeout fresh)
  /\ head (register_face_states 0 cancelled_ticks true Timeout fresh)
     = Some (set_registration_in_progress true fresh)
  /\ registration_in_progress
     <$> register_face_states 0 cancelled_ticks true Timeout fresh
     = [true; true; true]
  /\ registration_in_progress ∘ snd
       <$> register_face 0 cancelled_ticks true Timeout fresh = Some false.
Proof.
  assert (Htime : Exists (time_is_up 0) three_ticks).
  { unfold three_ticks. apply Exists_app. right. constructor.
    unfold time_is_up, REGISTRATION_DURATION. simpl. discriminate. }
  destruct (registration_flag_bracket 0 three_ticks true Timeout fresh)
    as (_ & _ & _ & Hreturns).
  destruct (registration_flag_bracket 0 cancelled_ticks true Timeout fresh)
    as (Hentry & _ & Hdown & _).
  split; [exact Htime|]. split; [exact (Hreturns Htime)|].
  split; [exact Hentry|]. split; [vm_compute; reflexivity|].
  destruct (register_face 0 cancelled_ticks true Timeout fresh)
    as [[result s']|] eqn:Hcall.
  - simpl. f_equal. exact (proj1 (Hdown result s' eq_refl)).
  - vm_compute in Hcall. discriminate.
Defined.

(** C2 does not hold as the specification words it. A session commits,
    the store is reset, a second session commits: both identities get the
    handle 1. *)
Lemma handle_reused_after_reset :
  is_button_clicked 1000 200 = Some Reset
  /\ fst <$> run reset_between_sessions fresh = Some [1; 1].
Proof. split; vm_compute; reflexivity. Qed.

Lemma handles_without_reset_example :
  Forall (fun a => is_reset_click a = false) sessions_without_reset
  /\ fst <$> run sessions_without_reset fresh = Some [1; 2]
  /\ StronglySorted Z.lt [1; 2].
Proof.
  assert (Hno : Forall (fun a => is_reset_click a = false)
                       sessions_without_reset)
    by (repeat constructor).
  destruct (run sessions_without_reset fresh) as [[handles s']|] eqn:Hrun.
  - destruct handles_fresh_only_between_resets as [Hfresh _].
    destruct (Hfresh _ _ _ _ Hno Hrun) as (Hsorted & _).
    assert (Hh : handles = [1; 2])
      by (vm_compute in Hrun; congruence).
    rewrite Hh in Hsorted.
    split; [exact Hno|]. split; [simpl; congruence | exact Hsorted].
  - vm_compute in Hrun. discriminate.
Defined.

(** C9, on the state of a process that has just started over a store
    with one identity. The counter is 1 and [person_1] is on the disk with
    its embeddings.  The user starts a registration and cancels it.  The
    call returns [None] with the counter and the name map untouched, and
    [person_1], the identity committed by the earlier run, is gone: its
    directory was taken as the directory of the session and removed by the
    rollback. *)
Theorem cancelled_session_removes_enrolled_identity :
  person_counter restarted = 1
  /\ saved_names restarted !! "person_1"%string = Some person_1
  /\ get_face_count restarted = 1%nat
  /\ fst <$> register_face 0 cancelled_ticks true (Ack "OK") restarted
     = Some None
  /\ (fun r => saved_names (snd r) !! "person_1"%string)
       <$> register_face 0 cancelled_ticks true (Ack "OK") restarted
     = Some None
  /\ get_face_count ∘ snd
       <$> register_face 0 cancelled_ticks true (Ack "OK") restarted
     = Some 0%nat
  /\ person_counter ∘ snd
       <$> register_face 0 cancelled_ticks true (Ack "OK") restarted
     = Some 1.
Proof. vm_compute. repeat split; reflexivity. Qed.

End Examples.

(** ** Further properties *)

Section MoreProperties.
Context {VP : VisionProvider}.

(** *** The similarity search *)

(** The search never lowers the best score. *)
Lemma scan_saved_embs_grows (test_emb : Embedding) (folder : string)
    (saved_embs : list Embedding) (best : Q * option string) :
  (fst best <= fst (scan_saved_embs test_emb folder saved_embs best))%Q.
Proof.
  revert best. induction saved_embs as [|emb rest IH]; intros best; simpl.
  - apply Qle_refl.
  - destruct (cosine_similarity test_emb emb) as [score|]; [|apply Qle_refl].
    eapply Qle_trans; [|apply IH].
    destruct (Qltb (fst best) score) eqn:Hlt; simpl; [|apply Qle_refl].
    apply Qlt_le_weak, Qltb_lt, Hlt.
Qed.

Lemma scan_folder_grows (test_emb : Embedding) (best : Q * option string)
    (ne : string * Entry) :
  (fst best <= fst (scan_folder test_emb best ne))%Q.
Proof.
  unfold scan_folder. destruct (snd ne) as [|d]; [apply Qle_refl|].
  destruct (embeddings_pkl d) as [[|embs]|]; try apply Qle_refl.
  apply scan_saved_embs_grows.
Qed.

Lemma foldl_scan_grows (test_emb : Embedding) (l : list (string * Entry))
    (best : Q * option string) :
  (fst best <= fst (foldl (scan_folder test_emb) best l))%Q.
Proof.
  revert best. induction l as [|ne l IH]; intros best; simpl.
  - apply Qle_refl.
  - eapply Qle_trans; [apply scan_folder_grows | apply IH].
Qed.

(** Whatever the search holds was attained by a stored embedding. *)
Lemma scan_saved_embs_attained (root : gmap string Entry)
    (test_emb : Embedding) (folder : string) (saved_embs : list Embedding)
    (best : Q * option string) :
  (forall emb, emb ∈ saved_embs -> stored root folder emb) ->
  attained root test_emb best ->
  attained root test_emb (scan_saved_embs test_emb folder saved_embs best).
Proof.
  revert best. induction saved_embs as [|emb rest IH]; intros best Hin Hbest;
    simpl; [exact Hbest|].
  destruct (cosine_similarity test_emb emb) as [score|] eqn:Hcos;
    [|exact Hbest].
  apply IH.
  - intros e He. apply Hin. right. exact He.
  - destruct (Qltb (fst best) score); [|exact Hbest].
    right. exists folder, emb, score. split; [|auto].
    apply Hin. left.
Qed.

Lemma scan_folder_attained (root : gmap string Entry) (test_emb : Embedding)
    (best : Q * option string) (ne : string * Entry) :
  root !! fst ne = Some (snd ne) ->
  attained root test_emb best ->
  attained root test_emb (scan_folder test_emb best ne).
Proof.
  intros Hne Hbest. unfold scan_folder.
  destruct (snd ne) as [|d] eqn:He; [exact Hbest|].
  destruct (embeddings_pkl d) as [[|embs]|] eqn:Hpkl; try exact Hbest.
  apply scan_saved_embs_attained; [|exact Hbest].
  intros emb Hemb. exists d, embs. auto.
Qed.

Lemma best_match_attained (test_emb : Embedding) (root : gmap string Entry) :
  attained root test_emb (best_match test_emb root).
Proof.
  unfold best_match, listdir.
  assert (Hall : Forall (fun ne => root !! fst ne = Some (snd ne))
                        (map_to_list root)).
  { apply Forall_forall. intros [k e] Hin.
    apply elem_of_map_to_list in Hin. exact Hin. }
  assert (Hstart : attained root test_emb (0%Q, None)) by (left; reflexivity).
  revert Hall Hstart. generalize (0%Q, @None string) as best.
  induction (map_to_list root) as [|ne l IH]; intros best Hall Hbest; simpl;
    [exact Hbest|].
  inversion Hall; subst. apply IH; [assumption|].
  apply scan_folder_attained; assumption.
Qed.

(** When no comparison raises, the search ends at or above the score of
    every stored embedding. *)
Lemma scan_saved_embs_bound (test_emb : Embedding) (folder : string)
    (saved_embs : list Embedding) (best : Q * option string)
    (emb : Embedding) (score : Q) :
  (forall e, e ∈ saved_embs -> is_Some (cosine_similarity test_emb e)) ->
  emb ∈ saved_embs ->
  cosine_similarity test_emb emb = Some score ->
  (score <= fst (scan_saved_embs test_emb folder saved_embs best))%Q.
Proof.
  revert best. induction saved_embs as [|e rest IH]; intros best Hok Hin Hcos.
  - inversion Hin.
  - simpl. destruct (Hok e) as [sc Hsc]; [left|]. rewrite Hsc.
    apply elem_of_cons in Hin as [->|Hin].
    + rewrite Hcos in Hsc. inversion Hsc; subst sc.
      eapply Qle_trans; [|apply scan_saved_embs_grows].
      destruct (Qltb (fst best) score) eqn:Hlt; simpl; [apply Qle_refl|].
      apply Qltb_ge, Hlt.
    + apply IH; [|exact Hin|exact Hcos].
      intros e' He'. apply Hok. right. exact He'.
Qed.

Lemma best_match_bound (test_emb : Embedding) (root : gmap string Entry)
    (folder : string) (emb : Embedding) (score : Q) :
  (forall f e, stored root f e -> is_Some (cosine_similarity test_emb e)) ->
  stored root folder emb ->
  cosine_similarity test_emb emb = Some score ->
  (score <= fst (best_match test_emb root))%Q.
Proof.
  intros Hok (d & embs & Hd & Hpkl & Hemb) Hcos.
  unfold best_match, listdir.
  assert (Hin : (folder, Directory d) ∈ map_to_list root)
    by (apply elem_of_map_to_list; exact Hd).
  generalize (0%Q, @None string) as best.
  induction (map_to_list root) as [|ne l IH]; intros best; [inversion Hin|].
  simpl. apply elem_of_cons in Hin as [<-|Hin]; [|apply IH; exact Hin].
  eapply Qle_trans; [|apply foldl_scan_grows].
  unfold scan_folder. simpl. rewrite Hpkl.
  apply scan_saved_embs_bound with (emb := emb); [|exact Hemb|exact Hcos].
  intros e He. apply (Hok folder). exists d, embs. auto.
Qed.


(** *** Verification: what an acceptance means *)

(** X1. [verify_face] accepts only a frame with exactly one face whose
    crop is valid and whose embedding, compared with some embedding
    stored in some identity directory, scores above the threshold.  The
    confidence returned is the product of that score and 100 as binary64
    computes it, and the status names the directory. *)
Theorem verify_face_accepts_only_enrolled (frame : Frame) (s : State) :
  decision (fst (verify_face frame s)) = true ->
  exists face test_emb folder emb score,
    detectMultiScale frame = Some [face]
    /\ is_valid_face (crop frame face) = true
    /\ extract_face_embedding (crop frame face) = Some test_emb
    /\ stored (saved_names s) folder emb
    /\ cosine_similarity test_emb emb = Some score
    /\ (CONFIDENCE_THRESHOLD < score)%Q
    /\ fst (verify_face frame s) = (true, Some face, Some (fmul score 100))
    /\ status_text (snd (verify_face frame s))
       = Welcome (Some folder) (fmul score 100).
Proof.
  unfold verify_face, decision.
  destruct (detectMultiScale frame) as [[|face [|face' more]]|];
    simpl; try discriminate.
  destruct (is_valid_face (crop frame face)) eqn:Hvalid; simpl;
    [|discriminate].
  destruct (extract_face_embedding (crop frame face)) as [test_emb|] eqn:Hemb;
    simpl; [|discriminate].
  pose proof (best_match_attained test_emb (saved_names s)) as Hbest.
  destruct (best_match test_emb (saved_names s)) as [best_score best_id].
  destruct (Qltb CONFIDENCE_THRESHOLD best_score) eqn:Hlt; simpl;
    [|discriminate].
  intros _. apply Qltb_lt in Hlt.
  destruct Hbest as [Hzero | (folder & emb & score & Hst & Hcos & Heq)].
  - inversion Hzero; subst. exfalso. revert Hlt.
    unfold CONFIDENCE_THRESHOLD, Qlt. simpl. lia.
  - inversion Heq; subst.
    exists face, test_emb, folder, emb, score. auto 10.
Qed.

(** X2. For a frame with one valid face whose embedding is extracted,
    and a store none of whose embeddings makes the comparison raise:
    [verify_face] accepts exactly when some stored embedding scores above
    the threshold, and the confidence it returns, accepting or not, is at
    least the product with 100, as binary64 computes it, of the score of
    every stored embedding. *)
Theorem verify_face_accepts_iff
    (frame : Frame) (s : State) (face : Box) (test_emb : Embedding) :
  detectMultiScale frame = Some [face] ->
  is_valid_face (crop frame face) = true ->
  extract_face_embedding (crop frame face) = Some test_emb ->
  (forall folder emb,
     stored (saved_names s) folder emb ->
     is_Some (cosine_similarity test_emb emb)) ->
  (decision (fst (verify_face frame s)) = true
   <-> exists folder emb score,
         stored (saved_names s) folder emb
         /\ cosine_similarity test_emb emb = Some score
         /\ (CONFIDENCE_THRESHOLD < score)%Q)
  /\ (forall folder emb score,
        stored (saved_names s) folder emb ->
        cosine_similarity test_emb emb = Some score ->
        exists c,
          verdict_confidence (fst (verify_face frame s)) = Some c
          /\ (fmul score 100 <= c)%Q).
Proof.
  intros Hdet Hvalid Hemb Hok.
  assert (Hshape :
            fst (verify_face frame s)
            = (Qltb CONFIDENCE_THRESHOLD
                    (fst (best_match test_emb (saved_names s))),
               Some face,
               Some (fmul (fst (best_match test_emb (saved_names s))) 100))).
  { unfold verify_face. rewrite Hdet, Hvalid, Hemb. simpl.
    destruct (best_match test_emb (saved_names s)) as [best_score best_id].
    simpl. destruct (Qltb CONFIDENCE_THRESHOLD best_score); reflexivity. }
  split; [split|].
  - rewrite Hshape. unfold decision. simpl. intros Hacc.
    apply Qltb_lt in Hacc.
    destruct (best_match_attained test_emb (saved_names s))
      as [Hzero | (folder & emb & score & Hst & Hcos & Heq)].
    + rewrite Hzero in Hacc. exfalso. revert Hacc.
      unfold CONFIDENCE_THRESHOLD, Qlt. simpl. lia.
    + rewrite Heq in Hacc. simpl in Hacc. exists folder, emb, score. auto.
  - intros (folder & emb & score & Hst & Hcos & Hlt).
    rewrite Hshape. unfold decision. simpl. apply Qltb_lt.
    eapply Qlt_le_trans; [exact Hlt|].
    eapply best_match_bound; eauto.
  - intros folder emb score Hst Hcos. rewrite Hshape.
    eexists. split; [reflexivity|].
    apply fmul_100_mono. eapply best_match_bound; eauto.
Qed.


(** The three shapes of the verdict of [verify_face]. *)
Lemma verify_face_verdict_cases (frame : Frame) (s : State) :
  fst (verify_face frame s) = (false, None, None)
  \/ (exists face, fst (verify_face frame s) = (false, Some face, Some 0%Q))
  \/ (exists face test_emb,
        fst (verify_face frame s)
        = (Qltb CONFIDENCE_THRESHOLD
                (fst (best_match test_emb (saved_names s))),
           Some face,
           Some (fmul (fst (best_match test_emb (saved_names s))) 100))).
Proof.
  unfold verify_face.
  destruct (detectMultiScale frame) as [[|face [|face' more]]|]; simpl; auto.
  destruct (is_valid_face (crop frame face)); simpl; auto.
  destruct (extract_face_embedding (crop frame face)) as [test_emb|]; simpl;
    [|eauto].
  right. right. exists face, test_emb.
  destruct (best_match test_emb (saved_names s)) as [best_score best_id].
  simpl. destruct (Qltb CONFIDENCE_THRESHOLD best_score); reflexivity.
Qed.

Lemma best_match_nonnegative (test_emb : Embedding)
    (root : gmap string Entry) :
  (0 <= fst (best_match test_emb root))%Q.
Proof.
  unfold best_match.
  apply (foldl_scan_grows test_emb (listdir root) (0%Q, None)).
Qed.

(** X3. The confidence [verify_face] returns is never negative,
    whatever the similarities: the search starts from 0 and only a higher
    score replaces the best one. *)
Theorem verify_face_confidence_nonnegative
    (frame : Frame) (s : State) (c : Q) :
  verdict_confidence (fst (verify_face frame s)) = Some c -> (0 <= c)%Q.
Proof.
  destruct (verify_face_verdict_cases frame s)
    as [-> | [[face ->] | (face & test_emb & ->)]];
    unfold verdict_confidence; simpl; intros H; inversion H; subst.
  - apply Qle_refl.
  - apply fmul_100_nonnegative, best_match_nonnegative.
Qed.

(** X4. The box of the face is drawn for every accepted face, and for no
    frame at all while the store holds no identity directory: there the
    verdict of a valid face carries its box, but with the confidence 0,
    which the test [face_box and confidence] of [draw_layout] takes for
    false. *)
Theorem box_drawn_for_verdict (frame : Frame) (s : State) :
  (decision (fst (verify_face frame s)) = true ->
   box_drawn (verdict_box (fst (verify_face frame s)))
             (verdict_confidence (fst (verify_face frame s))) = true)
  /\ (get_face_count s = 0%nat ->
      box_drawn (verdict_box (fst (verify_face frame s)))
                (verdict_confidence (fst (verify_face frame s))) = false).
Proof.
  destruct (verify_face_verdict_cases frame s)
    as [-> | [[face ->] | (face & test_emb & ->)]];
    unfold decision, verdict_box, verdict_confidence, box_drawn; simpl;
    split; try discriminate; try reflexivity.
  - intros Hacc. apply Qltb_lt, fmul_100_accepted in Hacc.
    destruct (Qeq_bool (fmul (fst (best_match test_emb (saved_names s))) 100)
                       0) eqn:Hz; [|reflexivity].
    apply Qeq_bool_iff in Hz. exfalso.
    rewrite Hz in Hacc. revert Hacc. unfold Qle. simpl. lia.
  - intros Hcount. rewrite (best_match_no_identity _ _ Hcount). reflexivity.
Qed.

(** *** Enrollment: what a call leaves behind *)

(** The ways [register_face] returns. *)
Lemma register_face_cases
    (start_time : Q) (ticks : list Tick) (disk_ok : bool) (reply : LinkReply)
    (s : State) (result : option string) (s' : State) :
  let user_id := user_id_of (person_counter s) in
  let user_dir := user_dir_of (person_counter s) in
  register_face start_time ticks disk_ok reply s = Some (result, s') ->
  (makedirs user_dir (register_entry s) = None
   /\ result = None
   /\ s' = abort FailedErrorOccurred user_dir (register_entry s))
  \/ (exists s0 ses s1,
        makedirs user_dir (register_entry s) = Some s0
        /\ register_loop user_dir start_time ticks new_session s0
           = Some (Raise, (ses, s1))
        /\ result = None
        /\ s' = abort FailedErrorOccurred user_dir s1)
  \/ (exists s0 flow ses s1,
        makedirs user_dir (register_entry s) = Some s0
        /\ register_loop user_dir start_time ticks new_session s0
           = Some (flow, (ses, s1))
        /\ flow <> Raise
        /\ register_finish user_id user_dir disk_ok reply ses s1
           = (result, s')).
Proof.
  intros user_id user_dir. rewrite register_face_unfold. cbv zeta.
  fold user_id user_dir.
  destruct (makedirs user_dir (register_entry s)) as [s0|] eqn:Hmk.
  - destruct (register_loop user_dir start_time ticks new_session s0)
      as [[flow [ses s1]]|] eqn:Hloop; [|discriminate].
    destruct flow; intros H; inversion H as [Hfin]; clear H.
    + right. right. exists s0, Next, ses, s1.
      split; [reflexivity|]. split; [exact Hloop|].
      split; [discriminate|].
      destruct (register_finish _ _ _ _ _ _); congruence.
    + right. right. exists s0, Break, ses, s1.
      split; [reflexivity|]. split; [exact Hloop|].
      split; [discriminate|].
      destruct (register_finish _ _ _ _ _ _); congruence.
    + right. left. exists s0, ses, s1. auto.
  - intros H; inversion H; subst. left. auto.
Qed.

(** The loop stops collecting at [MAX_REGISTRATION_IMAGES]. *)
Lemma register_loop_cap (user_dir : string) (start_time : Q)
    (ticks : list Tick) (ses : Session) (s : State)
    (flow : Flow) (ses' : Session) (s' : State) :
  (length (faces ses) <= MAX_REGISTRATION_IMAGES)%nat ->
  register_loop user_dir start_time ticks ses s = Some (flow, (ses', s')) ->
  (length (faces ses') <= MAX_REGISTRATION_IMAGES)%nat.
Proof.
  revert ses s. induction ticks as [|tk rest IH]; intros ses s Hcap Hrun;
    simpl in Hrun; [discriminate|].
  destruct (loop_condition start_time tk ses) eqn:Hcond.
  - assert (Hnext : (length (faces (fst (snd (register_body user_dir tk ses s))))
                     <= MAX_REGISTRATION_IMAGES)%nat).
    { unfold loop_condition in Hcond. apply andb_true_iff in Hcond as [_ Hlt].
      apply Nat.ltb_lt in Hlt.
      destruct (register_body_cases user_dir tk ses s)
        as [Hsame | (img & emb & _ & _ & Hses & _)].
      - rewrite Hsame. exact Hcap.
      - rewrite Hses. simpl. rewrite length_app. simpl. lia. }
    destruct (register_body user_dir tk ses s) as [[] [ses1 s1]]; simpl in *.
    + eapply IH; eassumption.
    + inversion Hrun; subst. exact Hnext.
    + inversion Hrun; subst. exact Hnext.
  - inversion Hrun; subst. exact Hcap.
Qed.

(** X5. Every identity [register_face] commits holds between
    [MIN_REGISTRATION_FACES] and [MAX_REGISTRATION_IMAGES] embeddings in
    [embeddings.pkl], under the directory named after the counter the call
    started from; when that directory did not exist before the call, it
    holds exactly one sample image per embedding. *)
Theorem committed_identity_size
    (start_time : Q) (ticks : list Tick) (disk_ok : bool) (reply : LinkReply)
    (s : State) (user_id : string) (s' : State) :
  register_face start_time ticks disk_ok reply s = Some (Some user_id, s') ->
  user_id = user_id_of (person_counter s)
  /\ exists d embs,
       saved_names s' !! user_dir_of (person_counter s) = Some (Directory d)
       /\ embeddings_pkl d = Some (Pickled embs)
       /\ (MIN_REGISTRATION_FACES <= length embs <= MAX_REGISTRATION_IMAGES)%nat
       /\ (saved_names s !! user_dir_of (person_counter s) = None ->
           length (jpgs d) = length embs).
Proof.
  intros Hcall.
  destruct (register_face_cases _ _ _ _ _ _ _ Hcall)
    as [(_ & Hr & _) | [(s0 & ses & s1 & _ & _ & Hr & _)
       | (s0 & flow & ses & s1 & Hmk & Hloop & _ & Hfin)]];
    try discriminate.
  destruct (makedirs_directory _ _ _ Hmk) as [d0 Hd0].
  pose proof (register_loop_store _ _ _ _ _ _ _ _ Hd0 Hloop) as Hstore.
  assert (Hd1 : saved_names s1 !! user_dir_of (person_counter s)
                = Some (Directory (mkPersonDir (jpgs d0 ++ faces ses)
                                               (embeddings_pkl d0))))
    by (rewrite Hstore; apply lookup_insert_eq).
  destruct (register_finish_commits (user_id_of (person_counter s))
              (user_dir_of (person_counter s)) disk_ok reply ses s1 _ Hd1)
    as [Hiff Hcommit].
  rewrite Hfin in Hiff, Hcommit. simpl in Hiff, Hcommit.
  assert (Hsome : is_Some (Some user_id)) by eauto.
  destruct (Hcommit Hsome) as (Hr & Hs & _).
  destruct (proj1 Hiff Hsome) as [Hmin _].
  destruct (register_loop_lengths _ _ _ _ _ _ _ _
              (conj (eq_refl : length (embeddings new_session)
                               = length (faces new_session)) eq_refl) Hloop)
    as [Hlen _].
  assert (Hcap : (length (faces ses) <= MAX_REGISTRATION_IMAGES)%nat).
  { eapply register_loop_cap; [|exact Hloop]. simpl.
    unfold MAX_REGISTRATION_IMAGES. lia. }
  split; [congruence|].
  exists (mkPersonDir (jpgs d0 ++ faces ses) (Some (Pickled (embeddings ses)))),
         (embeddings ses).
  split; [rewrite Hs; apply lookup_insert_eq|].
  split; [reflexivity|]. split; [lia|].
  intros Hfree. simpl.
  destruct (makedirs_cases _ _ _ Hmk) as [[_ Hs0] | (d & Hd & _)].
  - rewrite Hs0 in Hd0. simpl in Hd0. rewrite lookup_insert_eq in Hd0.
    inversion Hd0; subst d0. simpl. lia.
  - simpl in Hd. congruence.
Qed.


(** The fields of the lock controller and of the link through the
    pieces of [register_face]. *)
Lemma register_loop_lock_fields (user_dir : string) (start_time : Q)
    (ticks : list Tick) (ses : Session) (s : State)
    (flow : Flow) (ses' : Session) (s' : State) :
  register_loop user_dir start_time ticks ses s = Some (flow, (ses', s')) ->
  is_unlocked s' = is_unlocked s /\ last_lock_state s' = last_lock_state s.
Proof.
  apply (register_loop_invariant
           (fun _ s1 =>
              is_unlocked s1 = is_unlocked s
              /\ last_lock_state s1 = last_lock_state s)); [|auto].
  intros tk ses1 s1 _ HP.
  destruct (register_body_cases user_dir tk ses1 s1)
    as [Hsame | (img & emb & _ & _ & _ & Hs & _)].
  - rewrite Hsame. exact HP.
  - rewrite Hs. simpl. unfold imwrite.
    destruct (saved_names s1 !! user_dir) as [[|d]|]; exact HP.
Qed.

Lemma abort_lock_fields (why : Status) (user_dir : string) (s : State) :
  is_unlocked (abort why user_dir s) = is_unlocked s
  /\ last_lock_state (abort why user_dir s) = last_lock_state s
  /\ arduino (abort why user_dir s) = arduino s
  /\ link_calls (abort why user_dir s) = link_calls s
  /\ serial_out (abort why user_dir s) = serial_out s.
Proof.
  unfold abort, rmtree.
  destruct (saved_names s !! user_dir) as [[|d]|]; simpl; auto.
Qed.

Lemma makedirs_lock_fields (user_dir : string) (s s0 : State) :
  makedirs user_dir s = Some s0 ->
  is_unlocked s0 = is_unlocked s
  /\ last_lock_state s0 = last_lock_state s
  /\ arduino s0 = arduino s
  /\ link_calls s0 = link_calls s
  /\ serial_out s0 = serial_out s.
Proof.
  intros H. destruct (makedirs_cases _ _ _ H) as [[_ ->] | (d & _ & ->)];
    simpl; auto.
Qed.

Lemma register_finish_lock_fields (user_id user_dir : string)
    (disk_ok : bool) (reply : LinkReply) (ses : Session) (s : State) :
  let out := register_finish user_id user_dir disk_ok reply ses s in
  is_unlocked (snd out) = is_unlocked s
  /\ last_lock_state (snd out) = last_lock_state s
  /\ arduino (snd out) = arduino s
  /\ link_calls (snd out)
     = link_calls s
       ++ match fst out with
          | Some _ =>
              [("unlock"%string,
                andb (arduino s)
                     match reply with Ack _ => true | _ => false end)]
          | None => []
          end.
Proof.
  unfold register_finish.
  destruct (MIN_REGISTRATION_FACES <=? length (faces ses))%nat.
  - destruct (dump_embeddings user_dir (embeddings ses) disk_ok s)
      as [s1|] eqn:Hd.
    + unfold dump_embeddings in Hd. destruct disk_ok; [|discriminate].
      destruct (saved_names s !! user_dir) as [[|d]|]; inversion Hd; subst.
      unfold send_serial_command. simpl.
      destruct (arduino s) eqn:Hport; [destruct reply|]; simpl; auto.
    + pose proof (abort_lock_fields FailedSaveError user_dir s)
        as (H1 & H2 & H3 & H4 & _).
      cbv zeta. cbn [fst snd]. rewrite app_nil_r. auto.
  - pose proof (abort_lock_fields (FailedOnlyFaces (length (faces ses)))
                  user_dir s) as (H1 & H2 & H3 & H4 & _).
    cbv zeta. cbn [fst snd]. rewrite app_nil_r. auto.
Qed.

(** X6. [register_face] talks to the device only when it commits, and
    then once: the log of link calls grows by the single call
    [send_serial_command("unlock")], which returns [True] exactly on an
    open port that answers; any other return leaves the log as it was.
    In no case does the call change [is_unlocked], [last_lock_state] or
    [arduino]: the lock controller does not learn of the unlock. *)
Theorem register_face_unlocks_only_on_commit
    (start_time : Q) (ticks : list Tick) (disk_ok : bool) (reply : LinkReply)
    (s : State) (result : option string) (s' : State) :
  register_face start_time ticks disk_ok reply s = Some (result, s') ->
  link_calls s'
  = link_calls s
    ++ match result with
       | Some _ =>
           [("unlock"%string,
             andb (arduino s) match reply with Ack _ => true | _ => false end)]
       | None => []
       end
  /\ is_unlocked s' = is_unlocked s
  /\ last_lock_state s' = last_lock_state s
  /\ arduino s' = arduino s.
Proof.
  intros Hcall.
  destruct (register_face_cases _ _ _ _ _ _ _ Hcall)
    as [(_ & -> & ->) | [(s0 & ses & s1 & Hmk & Hloop & -> & ->)
       | (s0 & flow & ses & s1 & Hmk & Hloop & _ & Hfin)]].
  - destruct (abort_lock_fields FailedErrorOccurred
                (user_dir_of (person_counter s)) (register_entry s))
      as (-> & -> & -> & -> & _).
    simpl. rewrite app_nil_r. auto.
  - destruct (abort_lock_fields FailedErrorOccurred
                (user_dir_of (person_counter s)) s1)
      as (-> & -> & -> & -> & _).
    destruct (makedirs_lock_fields _ _ _ Hmk) as (Hu0 & Hl0 & Ha0 & Hc0 & _).
    destruct (register_loop_lock_fields _ _ _ _ _ _ _ _ Hloop) as (Hu1 & Hl1).
    destruct (register_loop_globals _ _ _ _ _ _ _ _ Hloop)
      as (_ & _ & _ & Hc1 & _ & Ha1).
    simpl in *. rewrite app_nil_r. repeat split; congruence.
  - destruct (makedirs_lock_fields _ _ _ Hmk) as (Hu0 & Hl0 & Ha0 & Hc0 & _).
    destruct (register_loop_lock_fields _ _ _ _ _ _ _ _ Hloop) as (Hu1 & Hl1).
    destruct (register_loop_globals _ _ _ _ _ _ _ _ Hloop)
      as (_ & _ & _ & Hc1 & _ & Ha1).
    pose proof (register_finish_lock_fields (user_id_of (person_counter s))
                  (user_dir_of (person_counter s)) disk_ok reply ses s1) as Hf.
    simpl in Hf. rewrite Hfin in Hf. simpl in *.
    destruct Hf as (Hu2 & Hl2 & Ha2 & Hc2).
    rewrite Hc2, Hu2, Hl2, Ha2, Hc1, Hc0, Ha1, Ha0.
    repeat split; congruence.
Qed.

Lemma rmtree_other (user_dir : string) (s : State) (k : string) :
  k <> user_dir -> saved_names (rmtree user_dir s) !! k = saved_names s !! k.
Proof.
  intros Hk. unfold rmtree.
  destruct (saved_names s !! user_dir) as [[|d]|]; simpl; try reflexivity.
  apply lookup_delete_ne. congruence.
Qed.

(** The entries of the store under other names go through a call
    untouched. *)
Lemma register_face_other_entries
    (start_time : Q) (ticks : list Tick) (disk_ok : bool) (reply : LinkReply)
    (s : State) (result : option string) (s' : State) (k : string) :
  register_face start_time ticks disk_ok reply s = Some (result, s') ->
  k <> user_dir_of (person_counter s) ->
  saved_names s' !! k = saved_names s !! k.
Proof.
  intros Hcall Hk.
  assert (Habort : forall why s1,
            saved_names (abort why (user_dir_of (person_counter s)) s1) !! k
            = saved_names s1 !! k).
  { intros why s1. destruct (abort_fields why (user_dir_of (person_counter s)) s1)
      as (_ & _ & _ & ->). apply rmtree_other. exact Hk. }
  assert (Hentry : forall s0,
            makedirs (user_dir_of (person_counter s)) (register_entry s)
            = Some s0 ->
            saved_names s0 !! k = saved_names s !! k).
  { intros s0 Hmk.
    destruct (makedirs_cases _ _ _ Hmk) as [[_ ->] | (d & _ & ->)];
      simpl; [|reflexivity].
    apply lookup_insert_ne. congruence. }
  assert (Hloop' : forall s0 flow ses s1,
            makedirs (user_dir_of (person_counter s)) (register_entry s)
            = Some s0 ->
            register_loop (user_dir_of (person_counter s)) start_time ticks
              new_session s0 = Some (flow, (ses, s1)) ->
            saved_names s1 !! k = saved_names s !! k).
  { intros s0 flow ses s1 Hmk Hloop.
    destruct (makedirs_directory _ _ _ Hmk) as [d0 Hd0].
    rewrite (register_loop_store _ _ _ _ _ _ _ _ Hd0 Hloop).
    rewrite lookup_insert_ne by congruence. apply Hentry. exact Hmk. }
  destruct (register_face_cases _ _ _ _ _ _ _ Hcall)
    as [(_ & -> & ->) | [(s0 & ses & s1 & Hmk & Hloop & -> & ->)
       | (s0 & flow & ses & s1 & Hmk & Hloop & _ & Hfin)]].
  - rewrite Habort. reflexivity.
  - rewrite Habort. eapply Hloop'; eassumption.
  - destruct result as [user_id|].
    + destruct (makedirs_directory _ _ _ Hmk) as [d0 Hd0].
      pose proof (register_loop_store _ _ _ _ _ _ _ _ Hd0 Hloop) as Hstore.
      assert (Hd1 : saved_names s1 !! user_dir_of (person_counter s)
                    = Some (Directory (mkPersonDir (jpgs d0 ++ faces ses)
                                                   (embeddings_pkl d0))))
        by (rewrite Hstore; apply lookup_insert_eq).
      destruct (register_finish_commits (user_id_of (person_counter s))
                  (user_dir_of (person_counter s)) disk_ok reply ses s1 _ Hd1)
        as [_ Hcommit].
      rewrite Hfin in Hcommit. simpl in Hcommit.
      destruct Hcommit as (_ & -> & _); [eauto|].
      rewrite lookup_insert_ne by congruence.
      eapply Hloop'; eassumption.
    + destruct (register_finish_gives_up (user_id_of (person_counter s))
                  (user_dir_of (person_counter s)) disk_ok reply ses s1)
        as [why Hwhy]; [rewrite Hfin; reflexivity|].
      rewrite Hfin in Hwhy. simpl in Hwhy. rewrite Hwhy, Habort.
      eapply Hloop'; eassumption.
Qed.

(** X7. Whatever its outcome, [register_face] leaves every entry of the
    store alone except the directory named after the counter it started
    from: no other identity is read, changed or removed by a session. *)
Theorem register_face_touches_one_directory
    (start_time : Q) (ticks : list Tick) (disk_ok : bool) (reply : LinkReply)
    (s : State) (result : option string) (s' : State) (k : string) :
  register_face start_time ticks disk_ok reply s = Some (result, s') ->
  k <> user_dir_of (person_counter s) ->
  saved_names s' !! k = saved_names s !! k.
Proof. apply register_face_other_entries. Qed.


(** *** Enrollment and the count of registered faces *)

Lemma count_insert_directory (m : gmap string Entry) (k : string)
    (d : PersonDir) :
  m !! k = None ->
  length (filter (fun ne => is_directory (snd ne) = true)
                 (map_to_list (<[k := Directory d]> m)))
  = S (length (filter (fun ne => is_directory (snd ne) = true)
                      (map_to_list m))).
Proof.
  intros Hfree. rewrite (map_to_list_insert m k (Directory d) Hfree).
  rewrite filter_cons. simpl.
  destruct (decide (true = true)); [reflexivity | congruence].
Qed.

(** X8. When the directory named after the counter does not exist yet,
    a call of [register_face] that commits raises [get_face_count] by
    exactly one, and a call that gives up leaves it as it was. *)
Theorem get_face_count_after_session
    (start_time : Q) (ticks : list Tick) (disk_ok : bool) (reply : LinkReply)
    (s : State) (result : option string) (s' : State) :
  saved_names s !! user_dir_of (person_counter s) = None ->
  register_face start_time ticks disk_ok reply s = Some (result, s') ->
  get_face_count s'
  = (get_face_count s + match result with Some _ => 1 | None => 0 end)%nat.
Proof.
  intros Hfree Hcall. destruct result as [user_id|].
  - destruct (register_face_cases _ _ _ _ _ _ _ Hcall)
      as [(_ & Hr & _) | [(s0 & ses & s1 & _ & _ & Hr & _)
         | (s0 & flow & ses & s1 & Hmk & Hloop & _ & Hfin)]];
      try discriminate.
    destruct (makedirs_cases _ _ _ Hmk) as [[_ Hs0] | (d & Hd & _)];
      [|simpl in Hd; congruence].
    assert (Hd0 : saved_names s0 !! user_dir_of (person_counter s)
                  = Some (Directory (mkPersonDir [] None)))
      by (rewrite Hs0; simpl; apply lookup_insert_eq).
    pose proof (register_loop_store _ _ _ _ _ _ _ _ Hd0 Hloop) as Hstore.
    assert (Hd1 : saved_names s1 !! user_dir_of (person_counter s)
                  = Some (Directory (mkPersonDir ([] ++ faces ses) None)))
      by (rewrite Hstore; apply lookup_insert_eq).
    destruct (register_finish_commits (user_id_of (person_counter s))
                (user_dir_of (person_counter s)) disk_ok reply ses s1 _ Hd1)
      as [_ Hcommit].
    rewrite Hfin in Hcommit. simpl in Hcommit.
    destruct Hcommit as (_ & Hs' & _); [eauto|].
    unfold get_face_count, listdir.
    rewrite Hs', Hstore, Hs0. simpl. rewrite !insert_insert_eq.
    rewrite count_insert_directory by exact Hfree. lia.
  - destruct (failed_session_rolls_back _ _ _ _ _ _ Hfree Hcall) as (Hs' & _).
    unfold get_face_count. rewrite Hs'. lia.
Qed.

(** *** A process that starts on an empty store *)

Lemma user_dir_of_inj (a b : Z) : user_dir_of a = user_dir_of b -> a = b.
Proof.
  unfold user_dir_of. simpl. intros H. inversion H as [Hp].
  exact (pretty_Z_inj a b Hp).
Qed.

Lemma on_mouse_store (lbuttondown : bool) (x y : Z) (reply : LinkReply)
    (s : State) :
  let s' := snd (on_mouse lbuttondown x y reply s) in
  (saved_names s' = saved_names s /\ person_counter s' = person_counter s)
  \/ (saved_names s' = ∅ /\ person_counter s' = 1).
Proof.
  unfold on_mouse.
  destruct (lbuttondown && negb (registration_in_progress s)); simpl; auto.
  destruct (is_button_clicked x y) as [[]|]; simpl; auto.
  - right. destruct (reset_store_fields reply
                       (set_button_clicked (Some Reset) s)) as (H1 & H2 & _).
    auto.
  - left. unfold send_serial_command. simpl.
    destruct (arduino s); [destruct reply|]; simpl; auto.
Qed.

Lemma register_face_counter_ahead
    (start_time : Q) (ticks : list Tick) (disk_ok : bool) (reply : LinkReply)
    (s : State) (result : option string) (s' : State) :
  counter_ahead s ->
  register_face start_time ticks disk_ok reply s = Some (result, s') ->
  counter_ahead s'.
Proof.
  intros Hahead Hcall k Hk.
  pose proof (register_face_counter _ _ _ _ _ _ _ Hcall) as Hc.
  assert (Hfree : saved_names s !! user_dir_of (person_counter s) = None)
    by (apply Hahead; lia).
  destruct result as [user_id|].
  - assert (Hne : user_dir_of k <> user_dir_of (person_counter s)).
    { intros Heq. apply user_dir_of_inj in Heq. lia. }
    rewrite (register_face_other_entries _ _ _ _ _ _ _ _
               Hcall Hne).
    apply Hahead. lia.
  - destruct (failed_session_rolls_back _ _ _ _ _ _ Hfree Hcall) as (-> & _).
    apply Hahead. lia.
Qed.

Lemma run_counter_ahead (actions : list Action) (s : State)
    (handles : list Z) (s' : State) :
  counter_ahead s ->
  run actions s = Some (handles, s') ->
  counter_ahead s'.
Proof.
  revert s handles. induction actions as [|a rest IH];
    intros s handles Hahead Hrun; simpl in Hrun.
  - inversion Hrun; subst. exact Hahead.
  - destruct a as [x y reply | start_time ticks disk_ok reply].
    + eapply IH; [|exact Hrun].
      destruct (on_mouse_store true x y reply s) as [[Hs Hc] | [Hs Hc]];
        intros k Hk.
      * rewrite Hs. apply Hahead. lia.
      * rewrite Hs. apply lookup_empty.
    + destruct (register_face start_time ticks disk_ok reply s)
        as [[result s1]|] eqn:Hreg; [|discriminate].
      destruct (run rest s1) as [[hs s2]|] eqn:Hrest; [|discriminate].
      inversion Hrun; subst.
      eapply IH; [|exact Hrest].
      eapply register_face_counter_ahead; eassumption.
Qed.

(** X9. In a process that started on an empty store, after any history
    of clicks and sessions, resets included, the directory of the next
    session does not exist yet; so a session that gives up leaves the
    store exactly as it found it and removes no identity. *)
Theorem empty_start_rollback_is_safe
    (port : bool) (actions : list Action) (handles : list Z) (s : State)
    (start_time : Q) (ticks : list Tick) (disk_ok : bool) (reply : LinkReply)
    (s' : State) :
  run actions (initial_state port ∅) = Some (handles, s) ->
  register_face start_time ticks disk_ok reply s = Some (None, s') ->
  saved_names s !! user_dir_of (person_counter s) = None
  /\ saved_names s' = saved_names s
  /\ get_face_count s' = get_face_count s.
Proof.
  intros Hrun Hcall.
  assert (Hahead : counter_ahead s).
  { eapply run_counter_ahead; [|exact Hrun].
    intros k _. apply lookup_empty. }
  assert (Hfree : saved_names s !! user_dir_of (person_counter s) = None)
    by (apply Hahead; lia).
  destruct (failed_session_rolls_back _ _ _ _ _ _ Hfree Hcall) as (Hs' & _).
  split; [exact Hfree|]. split; [exact Hs'|].
  unfold get_face_count. rewrite Hs'. reflexivity.
Qed.


(** *** Layout: the status text *)

Lemma length_list_ascii_of_string (s : string) :
  length (list_ascii_of_string s) = String.length s.
Proof. induction s as [|a s IH]; simpl; congruence. Qed.

Lemma length_string_of_list_ascii (l : list ascii) :
  String.length (string_of_list_ascii l) = length l.
Proof. induction l as [|a l IH]; simpl; congruence. Qed.

Lemma string_of_list_ascii_app (l1 l2 : list ascii) :
  string_of_list_ascii (l1 ++ l2)
  = string_of_list_ascii l1 +:+ string_of_list_ascii l2.
Proof.
  induction l1 as [|a l1 IH]; [reflexivity|].
  change (String a (string_of_list_ascii (l1 ++ l2))
          = String a (string_of_list_ascii l1 +:+ string_of_list_ascii l2)).
  rewrite IH. reflexivity.
Qed.

Lemma append_empty_r (s : string) : s +:+ "" = s.
Proof.
  induction s as [|a s IH]; [reflexivity|].
  change (String a (s +:+ "") = String a s). rewrite IH. reflexivity.
Qed.

Lemma concat_empty_separator (ss : list string) :
  String.concat "" ss = foldr String.append ""%string ss.
Proof.
  induction ss as [|x ss IH]; [reflexivity|].
  destruct ss as [|y ss].
  - simpl. symmetry. apply append_empty_r.
  - change (String.concat "" (x :: y :: ss))
      with (x +:+ ("" +:+ String.concat "" (y :: ss))).
    rewrite IH. reflexivity.
Qed.

Lemma concat_string_of_list_ascii (ls : list (list ascii)) :
  String.concat "" (map string_of_list_ascii ls)
  = string_of_list_ascii (concat ls).
Proof.
  rewrite concat_empty_separator.
  induction ls as [|l ls IH]; [reflexivity|].
  simpl. rewrite string_of_list_ascii_app, IH. reflexivity.
Qed.

(** The first [m] chunks of [c] elements make up the first [c * m]
    elements. *)
Lemma concat_chunks {A : Type} (l : list A) (c m : nat) :
  concat (map (fun i => take c (drop i l)) (map (fun k => c * k)%nat (seq 0 m)))
  = take (c * m) l.
Proof.
  induction m as [|m IH].
  - rewrite Nat.mul_0_r. reflexivity.
  - rewrite seq_S, !map_app, concat_app, IH. simpl. rewrite app_nil_r.
    rewrite take_take_drop. f_equal. lia.
Qed.

Lemma status_lines_chunks (status : string) :
  status_lines status
  = map string_of_list_ascii
      (map (fun i => take 35 (drop i (list_ascii_of_string status)))
           (map (fun k => 35 * k)%nat
                (seq 0 ((String.length status + 34) / 35)))).
Proof.
  unfold status_lines, range_step, slice. rewrite !map_map.
  apply map_ext. intros k. simpl. do 2 f_equal. lia.
Qed.

Lemma chunks_cover (n : nat) : (n <= 35 * ((n + 34) / 35))%nat.
Proof.
  pose proof (Nat.div_mod_eq (n + 34) 35) as Hdm.
  pose proof (Nat.mod_upper_bound (n + 34) 35) as Hub. lia.
Qed.

Lemma chunk_starts_inside (n k : nat) :
  (k < (n + 34) / 35)%nat -> (35 * k < n)%nat.
Proof.
  intros Hk. pose proof (Nat.div_mod_eq (n + 34) 35) as Hdm. lia.
Qed.

(** X10. [draw_layout] cuts the status into consecutive lines of 35
    characters, the last one holding the rest: the lines put together
    give the status back, none is empty and none is longer than 35.  It
    writes the first three only, which together are the first 105
    characters of the status; what lies beyond is never shown. *)
Theorem status_lines_wrap (status : string) :
  String.concat "" (status_lines status) = status
  /\ Forall (fun line => (0 < String.length line <= 35)%nat)
            (status_lines status)
  /\ (length (drawn_status_lines status) <= 3)%nat
  /\ String.concat "" (drawn_status_lines status) = slice status 0 105.
Proof.
  pose proof (length_list_ascii_of_string status) as Hlen.
  pose proof (chunks_cover (String.length status)) as Hcover.
  split; [|split; [|split]].
  - rewrite status_lines_chunks, concat_string_of_list_ascii, concat_chunks.
    rewrite take_ge by lia. apply string_of_list_ascii_of_string.
  - rewrite status_lines_chunks. rewrite !Forall_map.
    apply Forall_forall. intros k Hk. apply elem_of_seq in Hk as [_ Hk].
    simpl in Hk. apply chunk_starts_inside in Hk. simpl.
    rewrite length_string_of_list_ascii, length_take, length_drop. lia.
  - unfold drawn_status_lines. rewrite length_take. lia.
  - unfold drawn_status_lines.
    rewrite status_lines_chunks, !firstn_map, take_seq.
    rewrite concat_string_of_list_ascii, concat_chunks.
    unfold slice. rewrite drop_0. f_equal.
    destruct (Nat.min_spec 3 ((String.length status + 34) / 35))
      as [[Hlt ->] | [Hge ->]]; [reflexivity|].
    rewrite !take_ge by lia. reflexivity.
Qed.

(** *** Layout: buttons and overlays *)

(** X11. The hit test agrees with the buttons [draw_layout] draws: a
    click is attributed to a button exactly when it falls inside the
    rectangle of that button, borders included; a click outside all four
    rectangles is attributed to none. *)
Theorem is_button_clicked_matches_layout (x y : Z) (b : Button) :
  is_button_clicked x y = Some b
  <-> exists top, In (b, top) buttons /\ in_button top x y.
Proof.
  unfold is_button_clicked, buttons, in_button. split.
  - repeat match goal with
           | |- context [(?a <=? ?c)] => destruct (Z.leb_spec a c); simpl
           end;
      intros Hres; inversion Hres; subst;
      first [ exists 50; simpl; split; [tauto | lia]
            | exists 120; simpl; split; [tauto | lia]
            | exists 190; simpl; split; [tauto | lia]
            | exists 500; simpl; split; [tauto | lia] ].
  - intros (top & Hin & Hx & Hy). simpl in Hin.
    destruct Hin as [Hb|[Hb|[Hb|[Hb|[]]]]]; inversion Hb; subst;
      repeat match goal with
             | |- context [(?a <=? ?c)] => destruct (Z.leb_spec a c); simpl
             end;
      first [reflexivity | lia].
Qed.

(** X12. [overlay_image] passes its checks and goes on to write a block
    exactly when the anchor lies inside the background and the image and
    [max_size] have positive sides; that block lies inside the background
    and is larger neither than the image nor than [max_size]. *)
Theorem overlay_image_stays_inside
    (bg_w bg_h img_w img_h x y : Z) (max_size : Z * Z) :
  (is_Some (overlay_image bg_w bg_h img_w img_h x y max_size)
   <-> 0 <= x < bg_w /\ 0 <= y < bg_h /\ 0 < img_w /\ 0 < img_h
       /\ 0 < fst max_size /\ 0 < snd max_size)
  /\ forall new_w new_h,
       overlay_image bg_w bg_h img_w img_h x y max_size = Some (new_w, new_h) ->
       0 <= x /\ 0 <= y /\ 0 < new_w /\ 0 < new_h
       /\ x + new_w <= bg_w /\ y + new_h <= bg_h
       /\ new_w <= img_w /\ new_h <= img_h
       /\ new_w <= fst max_size /\ new_h <= snd max_size.
Proof.
  unfold overlay_image.
  destruct (Z.leb_spec bg_w x), (Z.leb_spec bg_h y), (Z.ltb_spec x 0),
    (Z.ltb_spec y 0); simpl;
    try (split; [split; [intros [? ?]; discriminate | lia]
                | intros ? ? ?; discriminate]).
  destruct (Z.leb_spec (Z.min (Z.min (fst max_size) (bg_w - x)) img_w) 0),
    (Z.leb_spec (Z.min (Z.min (snd max_size) (bg_h - y)) img_h) 0); simpl;
    try (split; [split; [intros [? ?]; discriminate | lia]
                | intros ? ? ?; discriminate]).
  split; [split; [lia | eauto]|].
  intros new_w new_h Hres. inversion Hres; subst. lia.
Qed.


(** *** The ESP32 camera *)

Lemma stream_reader_step_flags (cam : ESP32Camera) (r : StreamRead) :
  cam_cap (stream_reader_step cam r) = cam_cap cam
  /\ cam_connected (stream_reader_step cam r) = cam_connected cam
  /\ cam_running (stream_reader_step cam r) = cam_running cam.
Proof.
  unfold stream_reader_step.
  destruct (cam_running cam && cam_cap cam); [|auto].
  destruct r as [|[frame|]]; simpl; auto.
Qed.

Lemma stream_reader_flags (rs : list StreamRead) (cam : ESP32Camera) :
  cam_cap (foldl stream_reader_step cam rs) = cam_cap cam
  /\ cam_connected (foldl stream_reader_step cam rs) = cam_connected cam
  /\ cam_running (foldl stream_reader_step cam rs) = cam_running cam.
Proof.
  revert cam. induction rs as [|r rs IH]; intros cam; simpl; [auto|].
  destruct (IH (stream_reader_step cam r)) as (-> & -> & ->).
  apply stream_reader_step_flags.
Qed.

(** X13. While the camera is connected and its reader runs on an open
    stream, [read] returns the frame of the latest read of the reader
    that delivered one; reads that fail or raise in between leave the
    frame before them in place, and until the first delivery [read]
    returns what the slot held at the start. *)
Theorem camera_latest_frame_wins (cam : ESP32Camera) (rs : list StreamRead) :
  cam_connected cam = true ->
  cam_running cam = true ->
  cam_cap cam = true ->
  read (foldl stream_reader_step cam rs)
  = match last (omap delivered rs) with
    | Some frame => Some frame
    | None => cam_frame cam
    end.
Proof.
  revert cam. induction rs as [|r rs IH]; intros cam Hconn Hrun Hcap.
  - simpl. unfold read. rewrite Hconn. reflexivity.
  - destruct (stream_reader_step_flags cam r) as (Hc & Hn & Hr).
    assert (Hslot : cam_frame (stream_reader_step cam r)
                    = match delivered r with
                      | Some frame => Some frame
                      | None => cam_frame cam
                      end).
    { unfold stream_reader_step. rewrite Hrun, Hcap.
      destruct r as [|[frame|]]; reflexivity. }
    simpl foldl. rewrite IH, Hslot by congruence.
    change (omap delivered (r :: rs))
      with (match delivered r with
            | Some frame => frame :: omap delivered rs
            | None => omap delivered rs
            end).
    destruct (delivered r) as [frame|]; [rewrite last_cons|];
      destruct (last (omap delivered rs)); reflexivity.
Qed.

(** X14. [read] gives no frame from a camera whose [connect] failed or
    that was released, whatever its reader goes on reading; and a camera
    whose slot is empty gives none right after a [connect] that
    succeeded, because the frame of the test read is not kept. *)
Theorem camera_gives_no_frame
    (cam : ESP32Camera) (test : StreamRead) (rs : list StreamRead) :
  (fst (connect test cam) = false ->
   read (foldl stream_reader_step (snd (connect test cam)) rs) = None)
  /\ read (foldl stream_reader_step (release cam) rs) = None
  /\ (cam_frame cam = None -> read (snd (connect test cam)) = None).
Proof.
  split; [|split].
  - intros Hfail. unfold read.
    destruct (stream_reader_flags rs (snd (connect test cam))) as (_ & -> & _).
    destruct test as [|[frame|]]; simpl in *; congruence.
  - unfold read.
    destruct (stream_reader_flags rs (release cam)) as (_ & -> & _).
    reflexivity.
  - intros Hempty. unfold read.
    destruct test as [|[frame|]]; simpl; auto.
Qed.

(** *** Serial start-up *)

Lemma prefix_split (sub s : string) :
  String.prefix sub s = true <-> exists rest, s = sub +:+ rest.
Proof.
  revert s. induction sub as [|a sub IH]; intros s.
  - destruct s; simpl; (split; [intros _; eexists; reflexivity | reflexivity]).
  - destruct s as [|b s]; simpl.
    + split; [discriminate | intros [rest H]; discriminate].
    + destruct (ascii_dec a b) as [->|Hne].
      * rewrite IH. split; intros [rest H]; exists rest.
        -- change (String b s = String b (sub +:+ rest)). congruence.
        -- change (String b s = String b (sub +:+ rest)) in H. congruence.
      * split; [discriminate|]. intros [rest H].
        change (String b s = String a (sub +:+ rest)) in H. congruence.
Qed.

(** [contains] finds exactly the occurrences of [sub] in [s]. *)
Lemma contains_split (sub s : string) :
  contains sub s = true <-> exists before rest, s = before +:+ sub +:+ rest.
Proof.
  induction s as [|b s IH].
  - destruct sub as [|a sub]; simpl.
    + split; [intros _; exists ""%string, ""%string; reflexivity
             | reflexivity].
    + split; [discriminate|]. intros (before & rest & H).
      destruct before; discriminate H.
  - change (contains sub (String b s))
      with (String.prefix sub (String b s) || contains sub s).
    rewrite orb_true_iff, IH, prefix_split. split.
    + intros [[rest H] | (before & rest & H)].
      * exists ""%string, rest. exact H.
      * exists (String b before), rest.
        change (String b s = String b (before +:+ sub +:+ rest)). congruence.
    + intros (before & rest & H). destruct before as [|c before].
      * left. exists rest. exact H.
      * right. exists before, rest.
        change (String b s = String c (before +:+ sub +:+ rest)) in H.
        congruence.
Qed.

(** X15. [init_serial] reports a connection exactly when the port
    opened and its answer contains [READY], but it keeps the port
    whenever the port answered at all.  So after an answer without
    [READY] the start of [main] sends no ping of its own, and yet a
    [send_serial_command] on the state it leaves still writes its command
    to the port, unless the write raises, after the one ping of
    [init_serial]. *)
Theorem init_serial_keeps_silent_port
    (o : PortOpening) (reply : LinkReply) (s : State) :
  (fst (init_serial o s) = true
   <-> exists response,
         o = Responds response
         /\ exists before rest, response = before +:+ "READY" +:+ rest)
  /\ (arduino (snd (init_serial o s)) = true
      <-> exists response, o = Responds response)
  /\ (forall response command reply',
        o = Responds response ->
        contains "READY" response = false ->
        reply' <> WriteError ->
        link_calls (main_serial o reply s) = link_calls s
        /\ serial_out
             (snd (send_serial_command command reply' (main_serial o reply s)))
           = serial_out s ++ ["ping" +:+ newline; command +:+ newline]).
Proof.
  split; [|split].
  - destruct o as [| | |response]; simpl;
      try (split; [discriminate | intros (r & H & _); discriminate]).
    rewrite contains_split. split.
    + intros H. exists response. auto.
    + intros (r & Hr & H). inversion Hr; subst. exact H.
  - destruct o as [| | |response]; simpl;
      try (split; [discriminate | intros (r & H); discriminate]).
    split; eauto.
  - intros response command reply' -> Hno Hreply.
    unfold main_serial. simpl. rewrite Hno. simpl. split; [reflexivity|].
    unfold send_serial_command. simpl.
    destruct reply'; simpl; try contradiction; rewrite <- app_assoc;
      reflexivity.
Qed.

(** *** The main loop *)

Lemma main_loop_cons (input : option Frame * Q * LinkReply)
    (inputs : list (option Frame * Q * LinkReply)) (d : Display) (s : State) :
  main_loop (input :: inputs) d s
  = main_loop inputs
      (fst (main_iteration (fst (fst input)) (snd (fst input)) (snd input) d s))
      (snd (main_iteration (fst (fst input)) (snd (fst input)) (snd input) d s)).
Proof.
  unfold main_loop. simpl. destruct input as [[r t] rp]. simpl.
  destruct (main_iteration r t rp d s). reflexivity.
Qed.

(** X16. While a registration is in progress, the rest of the program
    stands still: no click does anything, whatever the button, and no
    iteration of the main loop verifies a face, sends a command or
    changes the display. *)
Theorem registration_excludes_the_rest (s : State) :
  registration_in_progress s = true ->
  (forall lbuttondown x y reply,
     on_mouse lbuttondown x y reply s = (Nothing, s))
  /\ (forall inputs d, main_loop inputs d s = (d, s)).
Proof.
  intros Hflag. split.
  - intros lbuttondown x y reply. unfold on_mouse. rewrite Hflag.
    rewrite andb_false_r. reflexivity.
  - intros inputs. induction inputs as [|[[r t] rp] inputs IH]; intros d;
      [reflexivity|].
    rewrite main_loop_cons. simpl. unfold main_iteration.
    destruct r as [frame|]; [|apply IH].
    rewrite Hflag, andb_false_r. apply IH.
Qed.

(** X17. The main loop verifies at most once per [UPDATE_INTERVAL]: an
    iteration that verifies (its clock minus [last_update_time], as
    binary64 computes the difference, exceeds the interval) sets
    [last_update_time] to its clock reading, and through all iterations
    whose clock is no more than the interval past [last_update_time] the
    state and the display stay as they are: no verification, no command
    to the device. *)
Theorem main_loop_rate_limit :
  (forall frame current_time reply d s,
     (UPDATE_INTERVAL < fsub current_time (last_update_time d))%Q ->
     registration_in_progress s = false ->
     last_update_time
       (fst (main_iteration (Some frame) current_time reply d s))
     = current_time
     /\ snd (main_iteration (Some frame) current_time reply d s)
        = snd (verification_cycle frame reply s))
  /\ (forall inputs d s,
        Forall (fun input =>
                  (snd (fst input) - last_update_time d <= UPDATE_INTERVAL)%Q)
               inputs ->
        main_loop inputs d s = (d, s)).
Proof.
  split.
  - intros frame current_time reply d s Hdue Hflag. unfold main_iteration.
    apply Qltb_lt in Hdue. rewrite Hdue, Hflag. simpl.
    destruct (verification_cycle frame reply s) as [[box conf] s1].
    split; reflexivity.
  - intros inputs d s Hall. induction Hall as [|[[r t] rp] inputs Hearly _ IH];
      [reflexivity|].
    rewrite main_loop_cons. simpl in *. unfold main_iteration.
    destruct r as [frame|]; [|exact IH].
    destruct (Qltb UPDATE_INTERVAL (fsub t (last_update_time d))) eqn:Hdue.
    + apply Qltb_lt, (round64_gt _ _ UPDATE_INTERVAL_double) in Hdue.
      exfalso. exact (Qlt_not_le _ _ Hdue Hearly).
    + simpl. exact IH.
Qed.


(** *** Verification: ties, and the time after a reset *)

Lemma scan_saved_embs_no_better (test_emb : Embedding) (folder : string)
    (saved_embs : list Embedding) (best : Q * option string) :
  (forall emb score,
     emb ∈ saved_embs ->
     cosine_similarity test_emb emb = Some score ->
     (score <= fst best)%Q) ->
  scan_saved_embs test_emb folder saved_embs best = best.
Proof.
  induction saved_embs as [|emb rest IH]; intros Hle; simpl; [reflexivity|].
  destruct (cosine_similarity test_emb emb) as [score|] eqn:Hcos;
    [|reflexivity].
  assert (Hno : Qltb (fst best) score = false).
  { apply Qltb_ge. apply (Hle emb); [left | exact Hcos]. }
  rewrite Hno. apply IH. intros e sc He. apply Hle. right. exact He.
Qed.

(** X18. Ties keep the first: a directory none of whose embeddings
    scores strictly above the best score so far, equal scores included,
    leaves the best pair, score and directory, as it is. *)
Theorem scan_folder_keeps_first_on_tie
    (test_emb : Embedding) (best : Q * option string) (folder : string)
    (d : PersonDir) (saved_embs : list Embedding) :
  embeddings_pkl d = Some (Pickled saved_embs) ->
  (forall emb score,
     emb ∈ saved_embs ->
     cosine_similarity test_emb emb = Some score ->
     (score <= fst best)%Q) ->
  scan_folder test_emb best (folder, Directory d) = best.
Proof.
  intros Hpkl Hle. unfold scan_folder. simpl. rewrite Hpkl.
  apply scan_saved_embs_no_better. exact Hle.
Qed.

Lemma verify_face_rejects_without_identity (frame : Frame) (s : State) :
  get_face_count s = 0%nat -> decision (fst (verify_face frame s)) = false.
Proof.
  intros Hcount.
  destruct (verify_face_verdict_cases frame s)
    as [-> | [[face ->] | (face & test_emb & ->)]]; try reflexivity.
  rewrite (best_match_no_identity _ _ Hcount). reflexivity.
Qed.

(** X19. After a reset click outside a registration, [verify_face]
    rejects every frame, and a verification cycle on any frame leaves
    [is_unlocked] false and [last_lock_state] at [Some false], sending
    [lock_on] if the controller believed otherwise. *)
Theorem reset_locks_out_every_face
    (x y : Z) (reply reply' : LinkReply) (s : State) (frame : Frame) :
  is_button_clicked x y = Some Reset ->
  registration_in_progress s = false ->
  let s1 := snd (on_mouse true x y reply s) in
  let s2 := snd (verification_cycle frame reply' s1) in
  decision (fst (verify_face frame s1)) = false
  /\ is_unlocked s2 = false
  /\ last_lock_state s2 = Some false
  /\ (last_lock_state s <> Some false ->
      exists result,
        link_calls s2 = link_calls s1 ++ [("lock_on"%string, result)]).
Proof.
  intros Hb Hflag s1 s2.
  assert (Hs1 : s1 = reset_store reply (set_button_clicked (Some Reset) s))
    by (apply on_mouse_reset; assumption).
  destruct (reset_store_fields reply (set_button_clicked (Some Reset) s))
    as (Hstore & _).
  rewrite <- Hs1 in Hstore.
  assert (Hrej : decision (fst (verify_face frame s1)) = false)
    by (apply verify_face_rejects_without_identity, get_face_count_empty;
        exact Hstore).
  assert (Hlast1 : last_lock_state s1 = last_lock_state s).
  { rewrite Hs1. unfold reset_store, send_serial_command. simpl.
    destruct (arduino s); [destruct reply|]; reflexivity. }
  pose proof (verification_cycle_last frame reply' s1) as Hlast.
  fold s2 in Hlast. rewrite Hrej in Hlast.
  split; [exact Hrej|]. split; [|split; [exact Hlast|]].
  - subst s2. unfold verification_cycle.
    destruct (verify_face_state frame s1) as [msg Hmsg].
    destruct (verify_face frame s1) as [[[dec box] conf] sv].
    unfold decision in Hrej. simpl in Hrej, Hmsg. subst dec sv. simpl.
    destruct (state_changed (last_lock_state s1) false); simpl;
      [|reflexivity].
    unfold send_serial_command. simpl.
    destruct (arduino s1); [destruct reply'|]; reflexivity.
  - intros Hdiff.
    destruct (verification_cycle_changed frame reply' s1) as (Hc & _).
    + rewrite Hrej, Hlast1. exact Hdiff.
    + rewrite Hrej in Hc. fold s2 in Hc. eauto.
Qed.

(** *** Enrollment: a file in the way *)

(** X20. When the name of the session's directory is taken by a regular
    file, [register_face] returns [None] at once, without looking at a
    single frame, and leaves the store, the counter and the name map as
    they were: the file is still there. *)
Theorem register_face_blocked_by_file
    (start_time : Q) (ticks : list Tick) (disk_ok : bool) (reply : LinkReply)
    (s : State) :
  saved_names s !! user_dir_of (person_counter s) = Some RegularFile ->
  exists s',
    register_face start_time ticks disk_ok reply s = Some (None, s')
    /\ saved_names s' = saved_names s
    /\ person_counter s' = person_counter s
    /\ name_map s' = name_map s
    /\ registration_in_progress s' = false
    /\ status_text s' = FailedErrorOccurred.
Proof.
  intros Hfile. rewrite register_face_unfold. unfold makedirs. simpl.
  rewrite Hfile.
  eexists. split; [reflexivity|].
  unfold abort, rmtree. simpl. rewrite Hfile. simpl. auto.
Qed.

End MoreProperties.

(** ** The further properties on concrete runs *)

Section MoreExamples.
Import Fixture.
#[local] Existing Instance toy_vision.

Lemma accepted_face_example :
  decision (fst (verify_face (one_face emb_a) restarted)) = true
  /\ exists folder emb score,
       stored (saved_names restarted) folder emb
       /\ cosine_similarity emb_a emb = Some score
       /\ (CONFIDENCE_THRESHOLD < score)%Q.
Proof.
  assert (H : decision (fst (verify_face (one_face emb_a) restarted)) = true)
    by (vm_compute; reflexivity).
  destruct (verify_face_accepts_only_enrolled (VP := toy_vision)
              (one_face emb_a) restarted H)
    as (face & test_emb & folder & emb & score & _ & _ & Hext & Hst & Hcos
        & Hlt & _).
  vm_compute in Hext. inversion Hext; subst test_emb.
  split; [exact H|]. exists folder, emb, score. auto.
Defined.

Lemma stored_on_restarted (folder : string) (emb : Embedding) :
  stored (saved_names restarted) folder emb ->
  folder = "person_1"%string /\ emb = emb_a.
Proof.
  intros (d & embs & Hd & Hpkl & Hin).
  change (saved_names restarted) with disk_with_person_1 in Hd.
  unfold disk_with_person_1 in Hd.
  apply lookup_singleton_Some in Hd as [<- Heq].
  inversion Heq; subst d. simpl in Hpkl. inversion Hpkl; subst embs.
  split; [reflexivity|].
  repeat (apply elem_of_cons in Hin as [->|Hin]; [reflexivity|]).
  inversion Hin.
Qed.

Lemma accepts_iff_example :
  detectMultiScale (one_face emb_a) = Some [box0]
  /\ is_valid_face (crop (one_face emb_a) box0) = true
  /\ extract_face_embedding (crop (one_face emb_a) box0) = Some emb_a
  /\ (forall folder emb,
        stored (saved_names restarted) folder emb ->
        is_Some (cosine_similarity emb_a emb))
  /\ (decision (fst (verify_face (one_face emb_a) restarted)) = true
      <-> exists folder emb score,
            stored (saved_names restarted) folder emb
            /\ cosine_similarity emb_a emb = Some score
            /\ (CONFIDENCE_THRESHOLD < score)%Q).
Proof.
  assert (H1 : detectMultiScale (one_face emb_a) = Some [box0]) by reflexivity.
  assert (H2 : is_valid_face (crop (one_face emb_a) box0) = true)
    by reflexivity.
  assert (H3 : extract_face_embedding (crop (one_face emb_a) box0)
               = Some emb_a) by reflexivity.
  assert (H4 : forall folder emb,
             stored (saved_names restarted) folder emb ->
             is_Some (cosine_similarity emb_a emb)).
  { intros folder emb Hst. apply stored_on_restarted in Hst as [_ ->].
    eexists. reflexivity. }
  destruct (verify_face_accepts_iff (VP := toy_vision)
              (one_face emb_a) restarted box0 emb_a
              H1 H2 H3 H4) as [Hiff _].
  exact (conj H1 (conj H2 (conj H3 (conj H4 Hiff)))).
Defined.

Lemma confidence_nonnegative_example :
  verdict_confidence (fst (verify_face (one_face emb_a) restarted))
  = Some 100%Q
  /\ (0 <= 100)%Q.
Proof.
  assert (H : verdict_confidence (fst (verify_face (one_face emb_a) restarted))
              = Some 100%Q) by (vm_compute; reflexivity).
  exact (conj H (verify_face_confidence_nonnegative _ _ _ H)).
Defined.

Lemma committed_identity_example :
  exists s',
    register_face 0 three_ticks true (Ack "OK") fresh
    = Some (Some "Person_1"%string, s')
    /\ exists d embs,
         saved_names s' !! "person_1"%string = Some (Directory d)
         /\ embeddings_pkl d = Some (Pickled embs)
         /\ (3 <= length embs <= 10)%nat.
Proof.
  assert (Hres : fst <$> register_face 0 three_ticks true (Ack "OK") fresh
                 = Some (Some "Person_1"%string))
    by (vm_compute; reflexivity).
  destruct (register_face 0 three_ticks true (Ack "OK") fresh)
    as [[result s']|] eqn:Hcall; [|discriminate Hres].
  simpl in Hres. inversion Hres; subst result.
  destruct (committed_identity_size _ _ _ _ _ _ _ Hcall)
    as (_ & d & embs & Hd & Hpkl & Hsize & _).
  exists s'. split; [reflexivity|]. exists d, embs. auto.
Defined.

Lemma unlock_on_commit_example :
  exists s',
    register_face 0 three_ticks true Timeout fresh
    = Some (Some "Person_1"%string, s')
    /\ link_calls s' = [("unlock"%string, false)]
    /\ last_lock_state s' = None.
Proof.
  assert (Hres : fst <$> register_face 0 three_ticks true Timeout fresh
                 = Some (Some "Person_1"%string))
    by (vm_compute; reflexivity).
  destruct (register_face 0 three_ticks true Timeout fresh)
    as [[result s']|] eqn:Hcall; [|discriminate Hres].
  simpl in Hres. inversion Hres; subst result.
  destruct (register_face_unlocks_only_on_commit _ _ _ _ _ _ _ Hcall)
    as (Hlink & _ & Hlast & _).
  exists s'. split; [reflexivity|]. split; [exact Hlink | exact Hlast].
Defined.

Lemma other_directory_example :
  exists s',
    register_face 0 cancelled_ticks true (Ack "OK") crowded = Some (None, s')
    /\ saved_names crowded !! "person_1"%string = Some person_1
    /\ saved_names s' !! "person_1"%string = None
    /\ saved_names s' !! "person_7"%string = Some person_1.
Proof.
  assert (Hres : (fun r => (fst r, saved_names (snd r) !! "person_1"%string))
                   <$> register_face 0 cancelled_ticks true (Ack "OK") crowded
                 = Some (None, None))
    by (vm_compute; reflexivity).
  destruct (register_face 0 cancelled_ticks true (Ack "OK") crowded)
    as [[result s']|] eqn:Hcall; [|discriminate Hres].
  simpl in Hres. inversion Hres as [[Hr Hgone]]. subst result.
  assert (Hne : "person_7"%string <> user_dir_of (person_counter crowded))
    by (vm_compute; discriminate).
  pose proof (register_face_touches_one_directory _ _ _ _ _ _ _ _ Hcall Hne)
    as Hsame.
  exists s'. split; [reflexivity|].
  split; [vm_compute; reflexivity|]. split; [reflexivity|].
  rewrite Hsame. vm_compute. reflexivity.
Defined.

Lemma count_after_commit_example :
  exists s',
    saved_names fresh !! user_dir_of (person_counter fresh) = None
    /\ register_face 0 three_ticks true (Ack "OK") fresh
       = Some (Some "Person_1"%string, s')
    /\ get_face_count s' = (get_face_count fresh + 1)%nat.
Proof.
  assert (Hfree : saved_names fresh !! user_dir_of (person_counter fresh)
                  = None) by (vm_compute; reflexivity).
  assert (Hres : fst <$> register_face 0 three_ticks true (Ack "OK") fresh
                 = Some (Some "Person_1"%string))
    by (vm_compute; reflexivity).
  destruct (register_face 0 three_ticks true (Ack "OK") fresh)
    as [[result s']|] eqn:Hcall; [|discriminate Hres].
  simpl in Hres. inversion Hres; subst result.
  pose proof (get_face_count_after_session _ _ _ _ _ _ _ Hfree Hcall) as Hcount.
  exists s'. split; [exact Hfree|]. split; [reflexivity | exact Hcount].
Defined.

Lemma empty_start_example :
  exists handles s s',
    run sessions_without_reset (initial_state true ∅) = Some (handles, s)
    /\ register_face 0 cancelled_ticks true (Ack "OK") s = Some (None, s')
    /\ saved_names s' = saved_names s.
Proof.
  assert (Hres : run sessions_without_reset (initial_state true ∅)
                 ≫= (fun hs =>
                       fst <$> register_face 0 cancelled_ticks true (Ack "OK")
                                 (snd hs))
                 = Some None)
    by (vm_compute; reflexivity).
  destruct (run sessions_without_reset (initial_state true ∅))
    as [[handles s]|] eqn:Hrun; [|discriminate Hres].
  simpl in Hres.
  destruct (register_face 0 cancelled_ticks true (Ack "OK") s)
    as [[result s']|] eqn:Hcall; [|discriminate Hres].
  simpl in Hres. inversion Hres; subst result.
  destruct (empty_start_rollback_is_safe _ _ _ _ _ _ _ _ _ Hrun Hcall)
    as (_ & Hsame & _).
  exists handles, s, s'. split; [reflexivity|].
  split; [exact Hcall | exact Hsame].
Defined.


Lemma latest_frame_example :
  cam_connected connected_camera = true
  /\ cam_running connected_camera = true
  /\ cam_cap connected_camera = true
  /\ read connected_camera = None
  /\ read (foldl stream_reader_step connected_camera stream_reads)
     = Some (one_face emb_b).
Proof.
  assert (H1 : cam_connected connected_camera = true) by reflexivity.
  assert (H2 : cam_running connected_camera = true) by reflexivity.
  assert (H3 : cam_cap connected_camera = true) by reflexivity.
  pose proof (camera_latest_frame_wins (VP := toy_vision)
                connected_camera stream_reads H1 H2 H3) as Hlast.
  split; [exact H1|]. split; [exact H2|]. split; [exact H3|].
  split; [reflexivity | exact Hlast].
Defined.

Lemma registration_excludes_example :
  registration_in_progress (register_entry restarted) = true
  /\ on_mouse true 1000 200 (Ack "OK") (register_entry restarted)
     = (Nothing, register_entry restarted)
  /\ main_loop [(Some (one_face emb_a), 5%Q, Ack "OK")]
       (mkDisplay 0 None None) (register_entry restarted)
     = (mkDisplay 0 None None, register_entry restarted).
Proof.
  assert (H : registration_in_progress (register_entry restarted) = true)
    by reflexivity.
  destruct (registration_excludes_the_rest (VP := toy_vision)
              (register_entry restarted) H) as [Hclick Hloop].
  split; [exact H|]. split; [apply Hclick | apply Hloop].
Defined.

(** A verification at the double [1.7] and a frame at [2.7]: the
    difference is the double after 1, and the iteration verifies.  A
    frame at [1.3] after a verification at [0.3] does not: the difference
    rounds to 1. *)
Lemma rate_limit_example :
  (UPDATE_INTERVAL < fsub d2_7 d1_7)%Q
  /\ registration_in_progress restarted = false
  /\ last_update_time
       (fst (main_iteration (Some no_face) d2_7 Timeout
               (mkDisplay d1_7 None None) restarted))
     = d2_7
  /\ fsub (5854679515581645 # 4503599627370496) d0_3 = UPDATE_INTERVAL
  /\ fst (main_iteration (Some no_face)
            (5854679515581645 # 4503599627370496) Timeout
            (mkDisplay d0_3 None None) restarted)
     = mkDisplay d0_3 None None.
Proof.
  assert (H1 : (UPDATE_INTERVAL < fsub d2_7 d1_7)%Q)
    by (vm_compute; reflexivity).
  assert (H2 : registration_in_progress restarted = false) by reflexivity.
  destruct (main_loop_rate_limit (VP := toy_vision)) as [Hdue _].
  destruct (Hdue no_face d2_7 Timeout
              (mkDisplay d1_7 None None) restarted H1 H2) as [H3 _].
  split; [exact H1|]. split; [exact H2|]. split; [exact H3|].
  split; vm_compute; reflexivity.
Defined.

Lemma tie_keeps_first_example :
  embeddings_pkl (mkPersonDir [] (Some (Pickled [emb_a; emb_b])))
  = Some (Pickled [emb_a; emb_b])
  /\ (forall emb score,
        emb ∈ [emb_a; emb_b] ->
        cosine_similarity emb_a emb = Some score ->
        (score <= fst (1%Q, Some "person_1"%string))%Q)
  /\ scan_folder emb_a (1%Q, Some "person_1"%string)
       ("person_7"%string,
        Directory (mkPersonDir [] (Some (Pickled [emb_a; emb_b]))))
     = (1%Q, Some "person_1"%string).
Proof.
  assert (H1 : embeddings_pkl (mkPersonDir [] (Some (Pickled [emb_a; emb_b])))
               = Some (Pickled [emb_a; emb_b])) by reflexivity.
  assert (H2 : forall emb score,
             emb ∈ [emb_a; emb_b] ->
             cosine_similarity emb_a emb = Some score ->
             (score <= fst (1%Q, Some "person_1"%string))%Q).
  { intros emb score Hin Hcos.
    apply elem_of_cons in Hin as [->|Hin];
      [|apply elem_of_cons in Hin as [->|Hin]; [|inversion Hin]];
      vm_compute in Hcos; inversion Hcos; subst score; simpl;
      unfold Qle; simpl; lia. }
  exact (conj H1 (conj H2
           (scan_folder_keeps_first_on_tie (VP := toy_vision)
              emb_a (1%Q, Some "person_1"%string) "person_7"
              (mkPersonDir [] (Some (Pickled [emb_a; emb_b])))
              [emb_a; emb_b] H1 H2))).
Defined.

Lemma reset_locks_out_example :
  is_button_clicked 1000 200 = Some Reset
  /\ registration_in_progress restarted = false
  /\ decision (fst (verify_face (one_face emb_a) restarted)) = true
  /\ decision
       (fst (verify_face (one_face emb_a)
               (snd (on_mouse true 1000 200 (Ack "OK") restarted))))
     = false.
Proof.
  assert (H1 : is_button_clicked 1000 200 = Some Reset) by reflexivity.
  assert (H2 : registration_in_progress restarted = false) by reflexivity.
  destruct (reset_locks_out_every_face (VP := toy_vision) 1000 200 (Ack "OK")
              Timeout restarted (one_face emb_a) H1 H2) as (Hrej & _).
  split; [exact H1|]. split; [exact H2|].
  split; [vm_compute; reflexivity | exact Hrej].
Defined.

Lemma blocked_by_file_example :
  saved_names file_in_the_way !! user_dir_of (person_counter file_in_the_way)
  = Some RegularFile
  /\ exists s',
       register_face 0 nine_ticks true (Ack "OK") file_in_the_way
       = Some (None, s')
       /\ saved_names s' = saved_names file_in_the_way.
Proof.
  assert (H : saved_names file_in_the_way
                !! user_dir_of (person_counter file_in_the_way)
              = Some RegularFile) by (vm_compute; reflexivity).
  destruct (register_face_blocked_by_file (VP := toy_vision) 0 nine_ticks
              true (Ack "OK") file_in_the_way H) as (s' & Hcall & Hsame & _).
  split; [exact H|]. exists s'. split; [exact Hcall | exact Hsame].
Defined.

End MoreExamples.
